(** * The contribution ledger of [src/App.js]

    A shallow embedding of the React Native component [App]: its state
    variables, its event handlers and the two persistence effects, together
    with the parts of the JavaScript runtime the handlers call
    ([JSON.stringify], [JSON.parse], [Date], [parseFloat], [toFixed],
    [Array.prototype.sort], [String.prototype.localeCompare]).

    JavaScript strings are modelled as [string], one [ascii] per code unit
    (code units 0..255).  JavaScript numbers are IEEE-754 binary64 values,
    modelled as [spec_float] with [prec = 53] and [emax = 1024]. *)

From Stdlib Require Import ZArith NArith List String Ascii Bool Lia.
From Stdlib Require Import Permutation Sorted DecimalString.
From Stdlib Require Import Floats.SpecFloat.
Import ListNotations.

Local Open Scope string_scope.
Local Open Scope Z_scope.

(** ** Records of the collection *)

(** One element of [contributions]: the object literal
    [{ id, name, payment, date }] of [addOrUpdateContribution]. *)
Module Item.
Record t : Type := mk
  { id : string; name : string; payment : string; date : string }.
End Item.

(** ** Strings *)

(** JavaScript truthiness of a string: every string but the empty one. *)
Definition truthy (s : string) : bool :=
  match s with
  | EmptyString => false
  | String _ _ => true
  end.

Definition chr (n : N) : ascii := ascii_of_N n.
Definition str (n : N) : string := String (chr n) EmptyString.

(** The double quote, code unit 34. *)
Definition dquote : string := str 34.

(** [Number.prototype.toString] on an integer below [1e21] in magnitude:
    its decimal digits, with a leading minus sign when negative. *)
Definition Number_toString (n : Z) : string :=
  NilZero.string_of_int (Z.to_int n).

(** ** JSON *)

Module JSON.

Definition hex_digit (n : N) : ascii :=
  if (n <? 10)%N then chr (48 + n) else chr (87 + n).

(** QuoteJSONString, one code unit at a time. *)
Definition quote_char (c : ascii) : string :=
  match N_of_ascii c with
  | 8%N => "\b"
  | 9%N => "\t"
  | 10%N => "\n"
  | 12%N => "\f"
  | 13%N => "\r"
  | 34%N => "\" ++ dquote
  | 92%N => "\\"
  | n =>
      if (n <? 32)%N
      then "\u00" ++ String (hex_digit (n / 16)) (String (hex_digit (n mod 16)) EmptyString)
      else String c EmptyString
  end.

Fixpoint quote_chars (s : string) : string :=
  match s with
  | EmptyString => EmptyString
  | String c r => quote_char c ++ quote_chars r
  end.

Definition quote (s : string) : string := dquote ++ quote_chars s ++ dquote.

(** SerializeJSONObject on a record: the members in creation order. *)
Definition stringify_item (i : Item.t) : string :=
  "{" ++ quote "id" ++ ":" ++ quote (Item.id i)
  ++ "," ++ quote "name" ++ ":" ++ quote (Item.name i)
  ++ "," ++ quote "payment" ++ ":" ++ quote (Item.payment i)
  ++ "," ++ quote "date" ++ ":" ++ quote (Item.date i) ++ "}".

(** SerializeJSONArray: the elements separated by commas. *)
Fixpoint stringify_items (l : list Item.t) : string :=
  match l with
  | [] => EmptyString
  | [i] => stringify_item i
  | i :: r => stringify_item i ++ "," ++ stringify_items r
  end.

Definition stringify (l : list Item.t) : string :=
  "[" ++ stringify_items l ++ "]".

(** *** Parsing *)

Definition is_ws (c : ascii) : bool :=
  match N_of_ascii c with
  | 9%N | 10%N | 13%N | 32%N => true
  | _ => false
  end.

Fixpoint skip_ws (s : string) : string :=
  match s with
  | String c r => if is_ws c then skip_ws r else s
  | EmptyString => s
  end.

Definition hex_val (c : ascii) : option N :=
  let n := N_of_ascii c in
  if ((48 <=? n) && (n <=? 57))%N then Some (n - 48)%N
  else if ((97 <=? n) && (n <=? 102))%N then Some (n - 87)%N
  else if ((65 <=? n) && (n <=? 70))%N then Some (n - 55)%N
  else None.

Definition hex4 (a b c d : ascii) : option N :=
  match hex_val a, hex_val b, hex_val c, hex_val d with
  | Some x, Some y, Some z, Some w => Some (((x * 16 + y) * 16 + z) * 16 + w)%N
  | _, _, _, _ => None
  end.

(** The character a single-letter escape stands for. *)
Definition unescape (e : ascii) : option ascii :=
  match N_of_ascii e with
  | 34%N => Some (chr 34)
  | 92%N => Some (chr 92)
  | 47%N => Some (chr 47)
  | 98%N => Some (chr 8)
  | 102%N => Some (chr 12)
  | 110%N => Some (chr 10)
  | 114%N => Some (chr 13)
  | 116%N => Some (chr 9)
  | _ => None
  end.

Definition push (c : ascii) (r : option (string * string)) : option (string * string) :=
  match r with
  | Some (s, rest) => Some (String c s, rest)
  | None => None
  end.

(** The characters of a JSON string after its opening quote, up to and
    including the closing quote; returns the decoded string and the input
    that follows.  A [\u] escape above 255 is outside the code units of
    the model and is refused. *)
Fixpoint parse_chars (s : string) : option (string * string) :=
  match s with
  | EmptyString => None
  | String c r =>
      match N_of_ascii c with
      | 34%N => Some (EmptyString, r)
      | 92%N =>
          match r with
          | EmptyString => None
          | String e r1 =>
              if (N_of_ascii e =? 117)%N then
                match r1 with
                | String h1 (String h2 (String h3 (String h4 r2))) =>
                    match hex4 h1 h2 h3 h4 with
                    | Some n =>
                        if (n <? 256)%N then push (chr n) (parse_chars r2) else None
                    | None => None
                    end
                | _ => None
                end
              else
                match unescape e with
                | Some c' => push c' (parse_chars r1)
                | None => None
                end
          end
      | n => if (n <? 32)%N then None else push c (parse_chars r)
      end
  end.

Definition parse_string (s : string) : option (string * string) :=
  match s with
  | String c r => if (N_of_ascii c =? 34)%N then parse_chars r else None
  | EmptyString => None
  end.

Definition expect (n : N) (s : string) : option string :=
  match s with
  | String c r => if (N_of_ascii c =? n)%N then Some r else None
  | EmptyString => None
  end.

(** The members of an object from the first key on, up to and including
    the closing brace.  Only string-valued members are in the model. *)
Fixpoint parse_members (fuel : nat) (s : string) (acc : list (string * string))
  : option (list (string * string) * string) :=
  match fuel with
  | O => None
  | S fuel' =>
      match parse_string s with
      | None => None
      | Some (k, s1) =>
          match expect 58 (skip_ws s1) with
          | None => None
          | Some s2 =>
              match parse_string (skip_ws s2) with
              | None => None
              | Some (v, s3) =>
                  match skip_ws s3 with
                  | String c r =>
                      if (N_of_ascii c =? 44)%N
                      then parse_members fuel' (skip_ws r) ((k, v) :: acc)
                      else if (N_of_ascii c =? 125)%N
                      then Some (rev ((k, v) :: acc), r)
                      else None
                  | EmptyString => None
                  end
              end
          end
      end
  end.

Definition parse_object (fuel : nat) (s : string)
  : option (list (string * string) * string) :=
  match expect 123 s with
  | None => None
  | Some s1 =>
      match expect 125 (skip_ws s1) with
      | Some r => Some ([], r)
      | None => parse_members fuel (skip_ws s1) []
      end
  end.

(** Property lookup on a parsed object: the last member of that name. *)
Fixpoint lookup (k : string) (m : list (string * string)) : option string :=
  match m with
  | [] => None
  | (k', v) :: r =>
      match lookup k r with
      | Some v' => Some v'
      | None => if (k' =? k)%string then Some v else None
      end
  end.

(** The record an object stands for: exactly the four members of a
    contribution, in any order. *)
Definition item_of_members (m : list (string * string)) : option Item.t :=
  match lookup "id" m, lookup "name" m, lookup "payment" m, lookup "date" m with
  | Some i, Some n, Some p, Some d =>
      if (List.length m =? 4)%nat then Some (Item.mk i n p d) else None
  | _, _, _, _ => None
  end.

Definition parse_item (fuel : nat) (s : string) : option (Item.t * string) :=
  match parse_object fuel s with
  | Some (m, r) =>
      match item_of_members m with
      | Some i => Some (i, r)
      | None => None
      end
  | None => None
  end.

(** The elements of an array from the first one on, up to and including
    the closing bracket. *)
Fixpoint parse_items (fuel : nat) (s : string) (acc : list Item.t)
  : option (list Item.t * string) :=
  match fuel with
  | O => None
  | S fuel' =>
      match parse_item fuel s with
      | None => None
      | Some (i, s1) =>
          match skip_ws s1 with
          | String c r =>
              if (N_of_ascii c =? 44)%N
              then parse_items fuel' (skip_ws r) (i :: acc)
              else if (N_of_ascii c =? 93)%N
              then Some (rev (i :: acc), r)
              else None
          | EmptyString => None
          end
      end
  end.

Definition parse_array (fuel : nat) (s : string) : option (list Item.t * string) :=
  match expect 91 s with
  | None => None
  | Some s1 =>
      match expect 93 (skip_ws s1) with
      | Some r => Some ([], r)
      | None => parse_items fuel (skip_ws s1) []
      end
  end.

(** [JSON.parse] on the slot of the ledger.  [None] stands for the
    [SyntaxError] the call throws; a text that is JSON but not an array
    of contribution objects (which the application never writes) is
    outside the model and also mapped to [None]. *)
Definition parse (s : string) : option (list Item.t) :=
  match parse_array (String.length s) (skip_ws s) with
  | Some (l, r) =>
      match skip_ws r with
      | EmptyString => Some l
      | String _ _ => None
      end
  | None => None
  end.

End JSON.

(** ** Dates *)

(** A [Date] object is its time value: milliseconds since the epoch, or
    [None] for the Invalid Date (time value NaN). *)
Module JsDate.

Definition t : Type := option Z.

Definition msPerDay : Z := 86400000.

Definition is_leap (y : Z) : bool :=
  ((y mod 4 =? 0) && negb (y mod 100 =? 0)) || (y mod 400 =? 0).

Definition days_in_month (y m : Z) : Z :=
  if (m =? 2) then (if is_leap y then 29 else 28)
  else if (m =? 4) || (m =? 6) || (m =? 9) || (m =? 11) then 30
  else 31.

(** Year, month and day of the proleptic Gregorian calendar from the day
    number (YearFromTime, MonthFromTime + 1, DateFromTime). *)
Definition civil_from_days (z : Z) : Z * Z * Z :=
  let z := z + 719468 in
  let era := z / 146097 in
  let doe := z - era * 146097 in
  let yoe := (doe - doe / 1460 + doe / 36524 - doe / 146096) / 365 in
  let doy := doe - (365 * yoe + yoe / 4 - yoe / 100) in
  let mp := (5 * doy + 2) / 153 in
  let d := doy - (153 * mp + 2) / 5 + 1 in
  let m := if mp <? 10 then mp + 3 else mp - 9 in
  let y := yoe + era * 400 in
  (if m <=? 2 then y + 1 else y, m, d).

(** The day number of a calendar date (MakeDay). *)
Definition days_from_civil (y m d : Z) : Z :=
  let y := if m <=? 2 then y - 1 else y in
  let era := y / 400 in
  let yoe := y - era * 400 in
  let doy := (153 * (if 2 <? m then m - 3 else m + 9) + 2) / 5 + d - 1 in
  let doe := yoe * 365 + yoe / 4 - yoe / 100 + doy in
  era * 146097 + doe - 719468.

Fixpoint zeros (n : nat) : string :=
  match n with
  | O => EmptyString
  | S k => String "0" (zeros k)
  end.

(** The decimal digits of a non-negative integer, padded to [w] places. *)
Definition pad (w : nat) (n : Z) : string :=
  let s := Number_toString n in
  zeros (w - String.length s) ++ s.

Definition year_string (y : Z) : string :=
  if (0 <=? y) && (y <=? 9999) then pad 4 y
  else if y <? 0 then "-" ++ pad 6 (- y)
  else "+" ++ pad 6 y.

(** [Date.prototype.toISOString]; [None] is the RangeError thrown on the
    Invalid Date. *)
Definition toISOString (d : t) : option string :=
  match d with
  | None => None
  | Some tv =>
      let '(y, m, dd) := civil_from_days (tv / msPerDay) in
      let ms := tv mod msPerDay in
      Some (year_string y ++ "-" ++ pad 2 m ++ "-" ++ pad 2 dd
            ++ "T" ++ pad 2 (ms / 3600000)
            ++ ":" ++ pad 2 ((ms / 60000) mod 60)
            ++ ":" ++ pad 2 ((ms / 1000) mod 60)
            ++ "." ++ pad 3 (ms mod 1000) ++ "Z")
  end.

Definition digit_val (c : ascii) : option Z :=
  let n := N_of_ascii c in
  if ((48 <=? n) && (n <=? 57))%N then Some (Z.of_N n - 48) else None.

Fixpoint digits_val (acc : Z) (s : string) : option Z :=
  match s with
  | EmptyString => Some acc
  | String c r =>
      match digit_val c with
      | Some d => digits_val (10 * acc + d) r
      | None => None
      end
  end.

(** TimeClip. *)
Definition time_clip (tv : Z) : t :=
  if Z.abs tv <=? 8640000000000000 then Some tv else None.

Definition make_date (y : option Z) (m d : string) : t :=
  match y, digits_val 0 m, digits_val 0 d with
  | Some y, Some m, Some d =>
      if (1 <=? m) && (m <=? 12) && (1 <=? d) && (d <=? days_in_month y m)
      then time_clip (days_from_civil y m d * msPerDay)
      else None
  | _, _, _ => None
  end.

(** [new Date(string)] on the date-only forms of the ISO format,
    [YYYY-MM-DD] and [+YYYYYY-MM-DD] / [-YYYYYY-MM-DD], read as UTC
    midnight.  What an engine makes of any other string is left to the
    implementation by ECMAScript; the model gives the Invalid Date. *)
Definition parse (s : string) : t :=
  if (String.length s =? 10)%nat then
    if (substring 4 1 s =? "-")%string && (substring 7 1 s =? "-")%string
    then make_date (digits_val 0 (substring 0 4 s)) (substring 5 2 s) (substring 8 2 s)
    else None
  else if (String.length s =? 13)%nat then
    if (substring 7 1 s =? "-")%string && (substring 10 1 s =? "-")%string
    then
      let y := digits_val 0 (substring 1 6 s) in
      if (substring 0 1 s =? "+")%string
      then make_date y (substring 8 2 s) (substring 11 2 s)
      else if (substring 0 1 s =? "-")%string
      then match y with
           | Some 0 => None
           | Some v => make_date (Some (- v)) (substring 8 2 s) (substring 11 2 s)
           | None => None
           end
      else None
    else None
  else None.

End JsDate.

(** [s.split(c)[0]]: the part of [s] before the first [c]. *)
Fixpoint split_head (c : ascii) (s : string) : string :=
  match s with
  | EmptyString => EmptyString
  | String a r => if (a =? c)%char then EmptyString else String a (split_head c r)
  end.

(** ** Numbers *)

Module Num.

Definition prec : Z := 53.
Definition emax : Z := 1024.

Definition number : Type := spec_float.

Definition NaN : number := S754_nan.
Definition zero : number := S754_zero false.

(** The [+] of two numbers. *)
Definition add (x y : number) : number := SFadd prec emax x y.

(** The number of an integer below [2^53] in magnitude (and the nearest
    number, ties to even, beyond). *)
Definition of_Z (n : Z) : number := binary_normalize prec emax n 0 false.

(** StrWhiteSpaceChar among the code units of the model. *)
Definition is_ws (c : ascii) : bool :=
  match N_of_ascii c with
  | 9%N | 10%N | 11%N | 12%N | 13%N | 32%N | 160%N => true
  | _ => false
  end.

Fixpoint trim_start (s : string) : string :=
  match s with
  | String c r => if is_ws c then trim_start r else s
  | EmptyString => s
  end.

(** The longest run of decimal digits at the head of [s], and the rest. *)
Fixpoint span_digits (s : string) : list Z * string :=
  match s with
  | EmptyString => ([], s)
  | String c r =>
      match JsDate.digit_val c with
      | Some d => let (ds, rest) := span_digits r in (d :: ds, rest)
      | None => ([], s)
      end
  end.

Definition value_of (ds : list Z) : Z :=
  fold_left (fun a d => 10 * a + d) ds 0.

(** The value of the ExponentPart at the head of [s]; [0] when [s] does
    not start with one (an [e] that no digit follows is not part of the
    literal). *)
Definition exponent_part (s : string) : Z :=
  match s with
  | String c r =>
      if (c =? "e")%char || (c =? "E")%char then
        match r with
        | String sg r1 =>
            if (sg =? "-")%char then
              match span_digits r1 with
              | ([], _) => 0
              | (ds, _) => - value_of ds
              end
            else
              match span_digits (if (sg =? "+")%char then r1 else r) with
              | ([], _) => 0
              | (ds, _) => value_of ds
              end
        | EmptyString => 0
        end
      else 0
  | EmptyString => 0
  end.

(** The number nearest to [p / q] (ties to even), for positive [p], [q]. *)
Definition round_quotient (neg : bool) (p q : Z) : number :=
  let '(mz, ez, lz) := SFdiv_core_binary prec emax p 0 q 0 in
  binary_round_aux prec emax neg mz ez lz.

(** The number nearest to [m * 10^e], for [0 <= m]. *)
Definition decimal_value (neg : bool) (m e : Z) : number :=
  if m =? 0 then S754_zero neg
  else if 0 <=? e then binary_normalize prec emax (cond_Zopp neg (m * 10 ^ e)) 0 false
  else round_quotient neg m (10 ^ (- e)).

(** The value of the longest StrUnsignedDecimalLiteral at the head of
    [s], or NaN when there is none. *)
Definition unsigned_literal (neg : bool) (s : string) : number :=
  if prefix "Infinity" s then S754_infinity neg
  else
    let (ip, r) := span_digits s in
    match r with
    | String "." r1 =>
        let (fp, r2) := span_digits r1 in
        match ip, fp with
        | [], [] => NaN
        | _, _ =>
            decimal_value neg (value_of (ip ++ fp))
              (exponent_part r2 - Z.of_nat (List.length fp))
        end
    | _ =>
        match ip with
        | [] => NaN
        | _ => decimal_value neg (value_of ip) (exponent_part r)
        end
    end.

(** The global [parseFloat]. *)
Definition parseFloat (s : string) : number :=
  match trim_start s with
  | String "-" r => unsigned_literal true r
  | String "+" r => unsigned_literal false r
  | t => unsigned_literal false t
  end.

(** [n] with a point before its last two digits, for [0 <= n]. *)
Definition two_places (n : Z) : string :=
  Number_toString (n / 100) ++ "." ++ JsDate.pad 2 (n mod 100).

(** [x.toFixed(2)].  For a finite [x] below [1e21] in magnitude the
    digits are those of the integer [n] for which [n / 100 - |x|] is
    closest to zero, the larger [n] on a tie.  From [1e21] on the method
    falls back to the exponent form of [Number.prototype.toString], which
    is not modelled: [None]. *)
Definition toFixed2 (x : number) : option string :=
  match x with
  | S754_nan => Some "NaN"
  | S754_infinity s => Some (if s then "-Infinity" else "Infinity")
  | S754_zero _ => Some "0.00"
  | S754_finite s m e =>
      let big :=
        if 0 <=? e then 10 ^ 21 <=? Zpos m * 2 ^ e
        else 10 ^ 21 * 2 ^ (- e) <=? Zpos m in
      let n :=
        if 0 <=? e then 100 * Zpos m * 2 ^ e
        else (200 * Zpos m + 2 ^ (- e)) / (2 * 2 ^ (- e)) in
      if big then None
      else Some ((if s then "-" else EmptyString) ++ two_places n)
  end.

End Num.

(** [a.localeCompare(b)].  The collation of [localeCompare] is that of the
    host locale; on the strings [formatDate] produces for the years 0000 to
    9999 (ASCII digits with hyphens at fixed places) every collation agrees
    with the order of the code units, which is what is modelled. *)
Definition localeCompare (a b : string) : Z :=
  match String.compare a b with
  | Lt => -1
  | Eq => 0
  | Gt => 1
  end.

(** [Array.prototype.sort] with a comparison function: a stable sort.  The
    result of a stable sort under a consistent comparison function does not
    depend on the algorithm; insertion from the right is used here. *)
Section ArraySort.
Context {A : Type} (cmp : A -> A -> Z).

(** [x] stood before every element of [l]: it moves past [y] only when
    [cmp x y] is positive. *)
Fixpoint sort_insert (x : A) (l : list A) : list A :=
  match l with
  | [] => [x]
  | y :: r => if 0 <? cmp x y then y :: sort_insert x r else x :: l
  end.

Fixpoint Array_sort (l : list A) : list A :=
  match l with
  | [] => []
  | x :: r => sort_insert x (Array_sort r)
  end.
End ArraySort.

(** ** The component *)

(** The state variables of [App], in the order of their [useState] calls,
    followed by the slot ['@contributions'] of [AsyncStorage] and the number
    of [setItem] calls issued so far. *)
Record World : Type := mkWorld
  { name : string;
    payment : string;
    date : JsDate.t;
    showDatePicker : bool;
    contributions : list Item.t;
    editingId : option string;
    storage : option string;
    writes : nat }.

Definition setName (v : string) (w : World) : World :=
  mkWorld v (payment w) (date w) (showDatePicker w) (contributions w)
          (editingId w) (storage w) (writes w).

Definition setPayment (v : string) (w : World) : World :=
  mkWorld (name w) v (date w) (showDatePicker w) (contributions w)
          (editingId w) (storage w) (writes w).

Definition setDate (v : JsDate.t) (w : World) : World :=
  mkWorld (name w) (payment w) v (showDatePicker w) (contributions w)
          (editingId w) (storage w) (writes w).

Definition setShowDatePicker (v : bool) (w : World) : World :=
  mkWorld (name w) (payment w) (date w) v (contributions w)
          (editingId w) (storage w) (writes w).

Definition setEditingId (v : option string) (w : World) : World :=
  mkWorld (name w) (payment w) (date w) (showDatePicker w) (contributions w)
          v (storage w) (writes w).

(** The effect on [[contributions]]: the whole collection is serialized and
    written to the slot.  A failing [setItem] is not modelled. *)
Definition saveContributions (w : World) : World :=
  mkWorld (name w) (payment w) (date w) (showDatePicker w) (contributions w)
          (editingId w) (Some (JSON.stringify (contributions w))) (S (writes w)).

(** [setContributions] is always called with a fresh array, so the
    dependency of the saving effect has changed at the next render and the
    effect runs: the state update and the save it triggers are one step. *)
Definition setContributions (c : list Item.t) (w : World) : World :=
  saveContributions
    (mkWorld (name w) (payment w) (date w) (showDatePicker w) c
             (editingId w) (storage w) (writes w)).

(** The effect on mount, given what [getItem] resolved to: [None] for
    [null].  A [JSON.parse] that throws is caught and logged. *)
Definition loadContributions (jsonValue : option string) (w : World) : World :=
  match jsonValue with
  | Some j =>
      match JSON.parse j with
      | Some c => setContributions c w
      | None => w
      end
  | None => w
  end.

(** The first render and its effects.  [getItem] is issued before the first
    [setItem] and resolves to the slot as it was before the mount. *)
Definition mount (stored : option string) (now : Z) : World :=
  loadContributions stored
    (saveContributions
       (mkWorld EmptyString EmptyString (Some now) false [] None stored O)).

Definition formatDate (d : JsDate.t) : option string :=
  option_map (split_head "T") (JsDate.toISOString d).

Definition onDateChange (selectedDate : option JsDate.t) (w : World) : World :=
  let w1 := setShowDatePicker false w in
  match selectedDate with
  | Some d => setDate d w1
  | None => w1
  end.

Definition sortedContributions (w : World) : list Item.t :=
  Array_sort (fun a b => localeCompare (Item.date b) (Item.date a))
             (contributions w).

(** How a handler ends: it returns, or an exception leaves it. *)
Inductive completion : Type :=
| Returned
| Thrown (error : string).

(** The value of [editingId] when it is truthy. *)
Definition editing (w : World) : option string :=
  match editingId w with
  | Some e => if truthy e then Some e else None
  | None => None
  end.

(** [now] is the reading of [Date.now()] for the id, [now'] the later one
    of the [new Date()] that resets the form. *)
Definition addOrUpdateContribution (now now' : Z) (w : World) : completion * World :=
  if truthy (name w) && truthy (payment w) then
    match formatDate (date w) with
    | None => (Thrown "RangeError", w)
    | Some formattedDate =>
        let w1 :=
          match editing w with
          | Some e =>
              setEditingId None
                (setContributions
                   (map (fun item =>
                           if (Item.id item =? e)%string
                           then Item.mk (Item.id item) (name w) (payment w) formattedDate
                           else item)
                        (contributions w))
                   w)
          | None =>
              setContributions
                (contributions w
                 ++ [Item.mk (Number_toString now) (name w) (payment w) formattedDate])
                w
          end in
        (Returned, setDate (Some now') (setPayment EmptyString (setName EmptyString w1)))
    end
  else (Returned, w).

Definition editContribution (id : string) (w : World) : World :=
  match find (fun item => (Item.id item =? id)%string) (contributions w) with
  | Some contribution =>
      setEditingId (Some (Item.id contribution))
        (setDate (JsDate.parse (Item.date contribution))
           (setPayment (Item.payment contribution)
              (setName (Item.name contribution) w)))
  | None => w
  end.

Definition deleteContribution (id : string) (w : World) : completion * World :=
  (Returned,
   setContributions
     (filter (fun item => negb (Item.id item =? id)%string) (contributions w)) w).

Definition totalPayment (w : World) : Num.number :=
  fold_left (fun sum item => Num.add sum (Num.parseFloat (Item.payment item)))
            (contributions w) Num.zero.

(** The text after [Total Payment: $]. *)
Definition totalText (w : World) : option string :=
  Num.toFixed2 (totalPayment w).

(** *** Runs of the component *)

(** What the user can do: type in the two inputs, open the picker and
    choose or dismiss a date, press the submit button, and press the edit or
    delete button of a row. *)
Inductive event : Type :=
| ChangeName (text : string)
| ChangePayment (text : string)
| PressDate
| DateChange (selectedDate : option JsDate.t)
| Submit (now now' : Z)
| Edit (id : string)
| Delete (id : string).

Definition step (w : World) (e : event) : World :=
  match e with
  | ChangeName v => setName v w
  | ChangePayment v => setPayment v w
  | PressDate => setShowDatePicker true w
  | DateChange d => onDateChange d w
  | Submit now now' => snd (addOrUpdateContribution now now' w)
  | Edit id => editContribution id w
  | Delete id => snd (deleteContribution id w)
  end.

Definition run (es : list event) (w : World) : World := fold_left step es w.

Definition reachable (w : World) : Prop :=
  exists stored now es, w = run es (mount stored now).

(** The ids of the collection, in order. *)
Definition ids (w : World) : list string := map Item.id (contributions w).

(** The amount strings of the collection, in order. *)
Definition payments (w : World) : list string := map Item.payment (contributions w).

Definition sumZ (l : list Z) : Z := fold_right Z.add 0 l.

(** [m * 2^e], with [m] of 53 bits, is the whole number [n]: the normal
    form under which a number holds [n]. *)
Definition normal_form (n : Z) (m : positive) (e : Z) : Prop :=
  Zpos (digits2_pos m) = 53 /\ -52 <= e <= 0 /\ Zpos m = n * 2 ^ (- e).

(** The whole number a string of decimal digits writes, [0] for any other
    string. *)
Definition digits_amount (p : string) : Z :=
  match JsDate.digits_val 0 p with
  | Some n => n
  | None => 0
  end.

(** ** Notions used by the properties of totals of money *)

(** The value of a non-negative number in units of [2^-59], for the
    numbers whose last bit weighs at least that much. *)
Definition scaled (x : Num.number) : Z :=
  match x with
  | S754_finite false m e => Zpos m * 2 ^ (e + 59)
  | _ => 0
  end.

(** Zero, or a normal number below [2^31] whose last bit weighs at least
    [2^-59]: where amounts of money from one cent on and their totals up to a
    billion lie. *)
Definition in_money_range (x : Num.number) : Prop :=
  match x with
  | S754_zero false => True
  | S754_finite false m e => Zpos (digits2_pos m) = 53 /\ -59 <= e <= -22
  | _ => False
  end.

(** The amount in cents that [s] writes, when [s] is a run of decimal
    digits, or such a run followed by a point and at most two decimal
    digits, and nothing else. *)
Definition money_cents (s : string) : option Z :=
  let (ip, r) := Num.span_digits s in
  match ip with
  | [] => None
  | _ =>
      match r with
      | EmptyString => Some (100 * Num.value_of ip)
      | String "." r1 =>
          let (fp, r2) := Num.span_digits r1 in
          match r2 with
          | EmptyString =>
              match fp with
              | [] => Some (100 * Num.value_of ip)
              | [_] => Some (10 * Num.value_of (ip ++ fp)%list)
              | [_; _] => Some (Num.value_of (ip ++ fp)%list)
              | _ => None
              end
          | _ => None
          end
      | _ => None
      end
  end.

Definition cents (s : string) : Z :=
  match money_cents s with
  | Some k => k
  | None => 0
  end.

(** [x] is in the range of money and within [n * 2^-22] of [c] cents. *)
Definition near (x : Num.number) (c n : Z) : Prop :=
  in_money_range x
  /\ Z.abs (100 * scaled x - c * 2 ^ 59) <= n * (100 * 2 ^ 37).

(** ** Example runs *)

Definition t0 : Z := 1709251200000.

(** One record in the ledger, and the form filled in with an amount that
    is not a number. *)
Definition ledger_abc : World :=
  run [ChangeName "Alice"; ChangePayment "50.00"; Submit (t0 + 1) (t0 + 2);
       ChangeName "Bob"; ChangePayment "abc"]
      (mount None t0).

(** The same, with the row of Alice opened for editing and the amount
    replaced by a negative one. *)
Definition ledger_edit_negative : World :=
  run [ChangeName "Alice"; ChangePayment "50.00"; Submit (t0 + 1) (t0 + 2);
       Edit "1709251200001"; ChangePayment "-5"]
      (mount None t0).

(** The row of Alice opened for editing and then deleted, the form still
    holding her values. *)
Definition ledger_dangling : World :=
  run [ChangeName "Alice"; ChangePayment "50.00"; Submit (t0 + 1) (t0 + 2);
       ChangeName "Bob"; ChangePayment "25.50"; Submit (t0 + 3) (t0 + 4);
       Edit "1709251200001"; Delete "1709251200001"]
      (mount None t0).

(** Two records, the row of Bob opened for editing. *)
Definition ledger_editing : World :=
  run [ChangeName "Alice"; ChangePayment "50.00"; Submit (t0 + 1) (t0 + 2);
       ChangeName "Bob"; ChangePayment "25.50"; Submit (t0 + 3) (t0 + 4);
       Edit "1709251200003"; ChangePayment "30"]
      (mount None t0).

(** Two submissions that read the same millisecond off the clock. *)
Definition ledger_same_tick : World :=
  run [ChangeName "Alice"; ChangePayment "50.00"; Submit (t0 + 1) (t0 + 1);
       ChangeName "Bob"; ChangePayment "25.50"; Submit (t0 + 1) (t0 + 1)]
      (mount None t0).

(** The three insertions of the example. *)
Definition ledger_abc_dates : World :=
  run [ChangeName "A"; ChangePayment "1"; DateChange (Some (JsDate.parse "2024-01-05"));
       Submit (t0 + 1) (t0 + 2);
       ChangeName "B"; ChangePayment "2"; DateChange (Some (JsDate.parse "2024-01-10"));
       Submit (t0 + 3) (t0 + 4);
       ChangeName "C"; ChangePayment "3"; DateChange (Some (JsDate.parse "2024-01-05"));
       Submit (t0 + 5) (t0 + 6)]
      (mount None t0).

(** The amounts [1e16], [1], [1], entered in this order and in the
    opposite one. *)
Definition ledger_big_first : World :=
  run [ChangeName "A"; ChangePayment "10000000000000000"; Submit (t0 + 1) (t0 + 2);
       ChangeName "B"; ChangePayment "1"; Submit (t0 + 3) (t0 + 4);
       ChangeName "C"; ChangePayment "1"; Submit (t0 + 5) (t0 + 6)]
      (mount None t0).

Definition ledger_big_last : World :=
  run [ChangeName "B"; ChangePayment "1"; Submit (t0 + 1) (t0 + 2);
       ChangeName "C"; ChangePayment "1"; Submit (t0 + 3) (t0 + 4);
       ChangeName "A"; ChangePayment "10000000000000000"; Submit (t0 + 5) (t0 + 6)]
      (mount None t0).

(** Whole amounts, entered in two orders. *)
Definition ledger_whole : World :=
  run [ChangeName "A"; ChangePayment "50"; Submit (t0 + 1) (t0 + 2);
       ChangeName "B"; ChangePayment "25"; Submit (t0 + 3) (t0 + 4);
       ChangeName "C"; ChangePayment "7"; Submit (t0 + 5) (t0 + 6)]
      (mount None t0).

Definition ledger_whole' : World :=
  run [ChangeName "C"; ChangePayment "7"; Submit (t0 + 1) (t0 + 2);
       ChangeName "A"; ChangePayment "50"; Submit (t0 + 3) (t0 + 4);
       ChangeName "B"; ChangePayment "25"; Submit (t0 + 5) (t0 + 6)]
      (mount None t0).

(** The two records of the scenario, entered in this order and in the
    opposite one. *)
Definition ledger_alice_bob : World :=
  run [ChangeName "Alice"; ChangePayment "50.00"; Submit (t0 + 1) (t0 + 2);
       ChangeName "Bob"; ChangePayment "25.50"; Submit (t0 + 3) (t0 + 4)]
      (mount None t0).

Definition ledger_bob_alice : World :=
  run [ChangeName "Bob"; ChangePayment "25.50"; Submit (t0 + 1) (t0 + 2);
       ChangeName "Alice"; ChangePayment "50.00"; Submit (t0 + 3) (t0 + 4)]
      (mount None t0).

(** Amounts below one unit, one of them with three decimal places, entered
    in two orders. *)
Definition ledger_mills : World :=
  run [ChangeName "A"; ChangePayment "0.005"; Submit (t0 + 1) (t0 + 2);
       ChangeName "B"; ChangePayment "0.2"; Submit (t0 + 3) (t0 + 4);
       ChangeName "C"; ChangePayment "0.7"; Submit (t0 + 5) (t0 + 6)]
      (mount None t0).

Definition ledger_mills' : World :=
  run [ChangeName "B"; ChangePayment "0.2"; Submit (t0 + 1) (t0 + 2);
       ChangeName "C"; ChangePayment "0.7"; Submit (t0 + 3) (t0 + 4);
       ChangeName "A"; ChangePayment "0.005"; Submit (t0 + 5) (t0 + 6)]
      (mount None t0).

(** * Properties *)

(** Closes a conjunction of closed equations by evaluating each side. *)
Ltac by_evaluation :=
  repeat match goal with |- _ /\ _ => split end; vm_compute; reflexivity.

(** ** The submit handler, case by case *)

Lemma submit_rejected (now now' : Z) (w : World) :
  truthy (name w) && truthy (payment w) = false ->
  addOrUpdateContribution now now' w = (Returned, w).
Proof.
  intros H. unfold addOrUpdateContribution. now rewrite H.
Qed.

Lemma submit_add (now now' : Z) (w : World) (fd : string) :
  truthy (name w) && truthy (payment w) = true ->
  formatDate (date w) = Some fd ->
  editing w = None ->
  addOrUpdateContribution now now' w =
  (Returned,
   setDate (Some now') (setPayment EmptyString (setName EmptyString
     (setContributions
        (contributions w ++ [Item.mk (Number_toString now) (name w) (payment w) fd])
        w)))).
Proof.
  intros H Hd He. unfold addOrUpdateContribution. now rewrite H, Hd, He.
Qed.

Lemma submit_update (now now' : Z) (w : World) (fd e : string) :
  truthy (name w) && truthy (payment w) = true ->
  formatDate (date w) = Some fd ->
  editing w = Some e ->
  addOrUpdateContribution now now' w =
  (Returned,
   setDate (Some now') (setPayment EmptyString (setName EmptyString
     (setEditingId None
        (setContributions
           (map (fun item =>
                   if (Item.id item =? e)%string
                   then Item.mk (Item.id item) (name w) (payment w) fd
                   else item)
                (contributions w))
           w))))).
Proof.
  intros H Hd He. unfold addOrUpdateContribution. now rewrite H, Hd, He.
Qed.

(** A [map] that rewrites the records of id [e] is the identity on a list
    that holds no such record. *)
Lemma map_absent_id (e : string) (f : Item.t -> Item.t) (l : list Item.t) :
  ~ In e (map Item.id l) ->
  map (fun item => if (Item.id item =? e)%string then f item else item) l = l.
Proof.
  induction l as [|x l IH]; simpl; intros H; [reflexivity|].
  destruct (String.eqb_spec (Item.id x) e) as [E|E].
  - exfalso. apply H. now left.
  - f_equal. apply IH. intros HI. apply H. now right.
Qed.

Lemma filter_id_absent (e : string) (l : list Item.t) :
  ~ In e (map Item.id (filter (fun item => negb (Item.id item =? e)%string) l)).
Proof.
  induction l as [|x l IH]; simpl; [tauto|].
  destruct (String.eqb_spec (Item.id x) e) as [E|E]; simpl; [exact IH|].
  intros [H|H]; [now apply E | now apply IH].
Qed.

Lemma filter_absent_id (e : string) (l : list Item.t) :
  ~ In e (map Item.id l) ->
  filter (fun item => negb (Item.id item =? e)%string) l = l.
Proof.
  induction l as [|x l IH]; simpl; intros H; [reflexivity|].
  destruct (String.eqb_spec (Item.id x) e) as [E|E]; simpl.
  - exfalso. apply H. now left.
  - f_equal. apply IH. intros HI. apply H. now right.
Qed.

(** ** Sorting *)

Section ArraySortFacts.
Context {A : Type} (cmp : A -> A -> Z).

Lemma sort_insert_perm (x : A) (l : list A) :
  Permutation (sort_insert cmp x l) (x :: l).
Proof.
  induction l as [|y l IH]; simpl; [reflexivity|].
  destruct (0 <? cmp x y); [|reflexivity].
  rewrite IH. apply perm_swap.
Qed.

Lemma Array_sort_perm (l : list A) : Permutation (Array_sort cmp l) l.
Proof.
  induction l as [|x l IH]; simpl; [reflexivity|].
  rewrite sort_insert_perm. now constructor.
Qed.

(** Insertion never carries an element past another one of the same
    class [p], so the elements of a class keep their order. *)
Lemma sort_insert_filter (p : A -> bool) (x : A) (l : list A) :
  (forall y, p x = true -> p y = true -> (0 <? cmp x y) = false) ->
  filter p (sort_insert cmp x l) = filter p (x :: l).
Proof.
  intros Hp. induction l as [|y l IH]; [reflexivity|].
  simpl. destruct (0 <? cmp x y) eqn:E; [|reflexivity].
  simpl. rewrite IH. simpl.
  destruct (p x) eqn:Px, (p y) eqn:Py; try reflexivity.
  rewrite (Hp y eq_refl Py) in E. discriminate.
Qed.

Lemma Array_sort_filter (p : A -> bool) (l : list A) :
  (forall x y, p x = true -> p y = true -> (0 <? cmp x y) = false) ->
  filter p (Array_sort cmp l) = filter p l.
Proof.
  intros Hp. induction l as [|x l IH]; [reflexivity|].
  simpl Array_sort. rewrite sort_insert_filter by (intros y; apply Hp).
  simpl. now rewrite IH.
Qed.

(** With a comparison function that is total and transitive, every
    element of the result is followed only by elements it does not have
    to come after. *)
Hypothesis cmp_total : forall x y, 0 < cmp x y -> cmp y x <= 0.
Hypothesis cmp_trans : forall x y z, cmp x y <= 0 -> cmp y z <= 0 -> cmp x z <= 0.

Lemma sort_insert_sorted (x : A) (l : list A) :
  StronglySorted (fun a b => cmp a b <= 0) l ->
  StronglySorted (fun a b => cmp a b <= 0) (sort_insert cmp x l).
Proof.
  induction l as [|y l IH]; simpl; intros H.
  - constructor; constructor.
  - inversion H as [|? ? Hs Hf]; subst.
    destruct (0 <? cmp x y) eqn:E.
    + apply Z.ltb_lt in E. constructor; [now apply IH|].
      apply (Permutation_Forall (Permutation_sym (sort_insert_perm x l))).
      constructor; [now apply cmp_total | exact Hf].
    + apply Z.ltb_ge in E. constructor; [exact H|].
      constructor; [exact E|].
      eapply Forall_impl; [|exact Hf]. intros z Hz. now apply (cmp_trans x y z).
Qed.

Lemma Array_sort_sorted (l : list A) :
  StronglySorted (fun a b => cmp a b <= 0) (Array_sort cmp l).
Proof.
  induction l as [|x l IH]; simpl; [constructor | now apply sort_insert_sorted].
Qed.
End ArraySortFacts.

(** *** The order of the code units *)

Lemma ascii_compare_trans (a b c : ascii) (o : comparison) :
  Ascii.compare a b = o -> Ascii.compare b c = o -> Ascii.compare a c = o.
Proof.
  unfold Ascii.compare. destruct o; intros H1 H2.
  - apply N.compare_eq_iff in H1, H2. apply N.compare_eq_iff. congruence.
  - rewrite N.compare_lt_iff in *. lia.
  - rewrite N.compare_gt_iff in *. lia.
Qed.

Lemma string_compare_refl (s : string) : String.compare s s = Eq.
Proof.
  induction s as [|a s IH]; simpl; [reflexivity|].
  unfold Ascii.compare. now rewrite N.compare_refl.
Qed.

Lemma string_compare_le_trans (s1 s2 s3 : string) :
  String.compare s1 s2 <> Gt -> String.compare s2 s3 <> Gt ->
  String.compare s1 s3 <> Gt.
Proof.
  revert s2 s3. induction s1 as [|a s1 IH]; intros [|b s2] [|c s3]; simpl;
    try congruence.
  destruct (Ascii.compare a b) eqn:E1; try congruence;
    destruct (Ascii.compare b c) eqn:E2; try congruence; intros H1 H2.
  - apply Ascii.compare_eq_iff in E1, E2. subst.
    unfold Ascii.compare. rewrite N.compare_refl. now apply (IH s2).
  - apply Ascii.compare_eq_iff in E1. subst. now rewrite E2.
  - apply Ascii.compare_eq_iff in E2. subst. now rewrite E1.
  - now rewrite (ascii_compare_trans a b c Lt E1 E2).
Qed.

Lemma localeCompare_total (a b : string) :
  0 < localeCompare a b -> localeCompare b a <= 0.
Proof.
  unfold localeCompare. rewrite (String.compare_antisym a b).
  destruct (String.compare b a); simpl; lia.
Qed.

Lemma localeCompare_le (a b : string) :
  localeCompare a b <= 0 <-> String.compare a b <> Gt.
Proof.
  unfold localeCompare. destruct (String.compare a b); split; intros; try lia; congruence.
Qed.

Lemma localeCompare_trans (a b c : string) :
  localeCompare a b <= 0 -> localeCompare b c <= 0 -> localeCompare a c <= 0.
Proof.
  rewrite !localeCompare_le. apply string_compare_le_trans.
Qed.

Lemma In_sortedContributions (w : World) (item : Item.t) :
  In item (sortedContributions w) <-> In item (contributions w).
Proof.
  unfold sortedContributions. split; apply Permutation_in.
  - apply Array_sort_perm.
  - apply Permutation_sym, Array_sort_perm.
Qed.

(** An update whose id is not in the collection: the records stay, the
    editing reference goes, the form is reset and a save is issued. *)
Lemma submit_update_absent (now now' : Z) (w : World) (e fd : string) :
  truthy (name w) && truthy (payment w) = true ->
  formatDate (date w) = Some fd ->
  editing w = Some e ->
  ~ In e (ids w) ->
  addOrUpdateContribution now now' w =
  (Returned,
   mkWorld EmptyString EmptyString (Some now') (showDatePicker w) (contributions w)
           None (Some (JSON.stringify (contributions w))) (S (writes w))).
Proof.
  intros H Hd He Hin. rewrite (submit_update now now' w fd e H Hd He).
  rewrite map_absent_id by exact Hin. reflexivity.
Qed.

(** ** Validation of a submission *)

(** C1, as the code has it: a submission is rejected (the world, and with
    it the collection and the number of saves, is unchanged) when the name
    or the amount string is empty.  With both non-empty and a valid date in
    the form it is accepted whatever the amount string holds: an add appends
    a record carrying the string as typed, an update rewrites the records of
    the edited id, and in both cases one save is issued. *)
Theorem C1_rejects_only_empty_fields (now now' : Z) (w : World) :
  (truthy (name w) && truthy (payment w) = false ->
   addOrUpdateContribution now now' w = (Returned, w))
  /\
  (forall fd : string,
     truthy (name w) && truthy (payment w) = true ->
     formatDate (date w) = Some fd ->
     let w' := snd (addOrUpdateContribution now now' w) in
     writes w' = S (writes w)
     /\ storage w' = Some (JSON.stringify (contributions w'))
     /\ contributions w' =
        match editing w with
        | None =>
            (contributions w
             ++ [Item.mk (Number_toString now) (name w) (payment w) fd])%list
        | Some e =>
            map (fun item =>
                   if (Item.id item =? e)%string
                   then Item.mk (Item.id item) (name w) (payment w) fd
                   else item)
                (contributions w)
        end).
Proof.
  split; [apply submit_rejected|].
  intros fd H Hd. destruct (editing w) as [e|] eqn:He.
  - rewrite (submit_update now now' w fd e H Hd He). now cbn.
  - rewrite (submit_add now now' w fd H Hd He). now cbn.
Qed.

Lemma C1_rejects_only_empty_fields_witness :
  (truthy (name ledger_abc) && truthy (payment ledger_abc) = true
   /\ formatDate (date ledger_abc) = Some "2024-03-01"
   /\ contributions (snd (addOrUpdateContribution (t0 + 5) (t0 + 6) ledger_abc)) =
      (contributions ledger_abc
       ++ [Item.mk (Number_toString (t0 + 5)) (name ledger_abc) (payment ledger_abc)
                   "2024-03-01"])%list)
  /\
  (truthy (name (mount None t0)) && truthy (payment (mount None t0)) = false
   /\ addOrUpdateContribution (t0 + 5) (t0 + 6) (mount None t0)
      = (Returned, mount None t0)).
Proof.
  split.
  - split; [reflexivity|]. split; [reflexivity|].
    exact (proj2 (proj2
             (proj2 (C1_rejects_only_empty_fields (t0 + 5) (t0 + 6) ledger_abc)
                    "2024-03-01" eq_refl eq_refl))).
  - split; [reflexivity|].
    exact (proj1 (C1_rejects_only_empty_fields (t0 + 5) (t0 + 6) (mount None t0))
                 eq_refl).
Defined.

(** C1 as stated fails: with the name [Bob] and the amount [abc], which
    [parseFloat] does not read as a number, an add changes the collection
    and issues a save; with the amount [-5] an update does the same. *)
Lemma C1_counterexample :
  (truthy (name ledger_abc) = true
   /\ truthy (payment ledger_abc) = true
   /\ Num.parseFloat (payment ledger_abc) = Num.NaN
   /\ contributions ledger_abc = [Item.mk "1709251200001" "Alice" "50.00" "2024-03-01"]
   /\ contributions (snd (addOrUpdateContribution (t0 + 5) (t0 + 6) ledger_abc)) =
      [Item.mk "1709251200001" "Alice" "50.00" "2024-03-01";
       Item.mk "1709251200005" "Bob" "abc" "2024-03-01"]
   /\ writes (snd (addOrUpdateContribution (t0 + 5) (t0 + 6) ledger_abc)) =
      S (writes ledger_abc))
  /\
  (truthy (name ledger_edit_negative) = true
   /\ truthy (payment ledger_edit_negative) = true
   /\ SFltb (Num.parseFloat (payment ledger_edit_negative)) Num.zero = true
   /\ contributions ledger_edit_negative =
      [Item.mk "1709251200001" "Alice" "50.00" "2024-03-01"]
   /\ contributions
        (snd (addOrUpdateContribution (t0 + 5) (t0 + 6) ledger_edit_negative)) =
      [Item.mk "1709251200001" "Alice" "-5" "2024-03-01"]
   /\ writes (snd (addOrUpdateContribution (t0 + 5) (t0 + 6) ledger_edit_negative)) =
      S (writes ledger_edit_negative)).
Proof.
  by_evaluation.
Qed.

(** ** Updating *)

(** C2, as the code has it: a submitted update whose id is not in the
    collection reports nothing.  The handler returns normally, the records
    of the collection are what they were, the editing reference is cleared
    and the form is reset, as after an update that found its record; the
    unchanged snapshot is saved once more. *)
Theorem C2_update_of_absent_id_is_silent (now now' : Z) (w : World) (e fd : string) :
  truthy (name w) && truthy (payment w) = true ->
  formatDate (date w) = Some fd ->
  editing w = Some e ->
  ~ In e (ids w) ->
  let r := addOrUpdateContribution now now' w in
  fst r = Returned
  /\ contributions (snd r) = contributions w
  /\ editingId (snd r) = None
  /\ name (snd r) = EmptyString
  /\ payment (snd r) = EmptyString
  /\ writes (snd r) = S (writes w).
Proof.
  intros H Hd He Hin. rewrite (submit_update_absent now now' w e fd H Hd He Hin).
  cbn. repeat split.
Qed.

Lemma C2_update_of_absent_id_is_silent_witness :
  truthy (name ledger_dangling) && truthy (payment ledger_dangling) = true
  /\ formatDate (date ledger_dangling) = Some "2024-03-01"
  /\ editing ledger_dangling = Some "1709251200001"
  /\ ~ In "1709251200001" (ids ledger_dangling)
  /\ fst (addOrUpdateContribution (t0 + 5) (t0 + 6) ledger_dangling) = Returned
  /\ contributions (snd (addOrUpdateContribution (t0 + 5) (t0 + 6) ledger_dangling))
     = contributions ledger_dangling.
Proof.
  assert (Hin : ~ In "1709251200001" (ids ledger_dangling)).
  { vm_compute. intros [H|[]]. discriminate H. }
  split; [reflexivity|]. split; [reflexivity|]. split; [reflexivity|].
  split; [exact Hin|].
  pose proof (C2_update_of_absent_id_is_silent (t0 + 5) (t0 + 6) ledger_dangling
                "1709251200001" "2024-03-01" eq_refl eq_refl eq_refl Hin) as P.
  exact (conj (proj1 P) (proj1 (proj2 P))).
Defined.

(** C2 as stated fails: with the editing reference on an id that is no
    longer in the collection, the submission returns normally and leaves the
    same trace as a successful update; no failure reaches the caller. *)
Lemma C2_counterexample :
  editing ledger_dangling = Some "1709251200001"
  /\ ids ledger_dangling = ["1709251200003"]
  /\ addOrUpdateContribution (t0 + 5) (t0 + 6) ledger_dangling =
     (Returned,
      mkWorld EmptyString EmptyString (Some (t0 + 6)) false
        [Item.mk "1709251200003" "Bob" "25.50" "2024-03-01"] None
        (Some (JSON.stringify [Item.mk "1709251200003" "Bob" "25.50" "2024-03-01"]))
        5).
Proof.
  by_evaluation.
Qed.



(** ** Removing *)

(** C3, as the code has it: after [deleteContribution id] no record of the
    list shown has that id; a second [deleteContribution id] returns
    normally, as the first did, and leaves the collection and the stored
    snapshot as they were, though it writes that snapshot once more. *)
Theorem C3_remove_then_remove_again (id : string) (w : World) :
  let r1 := deleteContribution id w in
  let r2 := deleteContribution id (snd r1) in
  ~ In id (map Item.id (sortedContributions (snd r1)))
  /\ fst r1 = Returned
  /\ fst r2 = Returned
  /\ contributions (snd r2) = contributions (snd r1)
  /\ storage (snd r2) = storage (snd r1)
  /\ writes (snd r2) = S (writes (snd r1)).
Proof.
  cbv zeta. split.
  - intros H. apply in_map_iff in H. destruct H as [x [Hx Hi]].
    apply In_sortedContributions in Hi.
    apply (filter_id_absent id (contributions w)).
    apply in_map_iff. now exists x.
  - cbn. repeat split.
    + apply filter_absent_id, filter_id_absent.
    + rewrite filter_absent_id by apply filter_id_absent. reflexivity.
Qed.

(** C3 as stated fails: the second removal of an id does not fail; it
    completes exactly as the first one did. *)
Lemma C3_counterexample :
  In "1709251200001" (ids ledger_editing)
  /\ ids (snd (deleteContribution "1709251200001" ledger_editing)) = ["1709251200003"]
  /\ fst (deleteContribution "1709251200001" ledger_editing) = Returned
  /\ fst (deleteContribution "1709251200001"
            (snd (deleteContribution "1709251200001" ledger_editing))) = Returned.
Proof.
  split; [vm_compute; left; reflexivity|].
  by_evaluation.
Qed.

(** C10: deleting the record that is being edited leaves the editing
    reference on its id; the next submission, an update of that id, creates
    no record and changes none, and it is this submission that clears the
    reference. *)
Theorem C10_delete_while_editing (now now' : Z) (w : World) (id fd : string) :
  editing w = Some id ->
  truthy (name w) && truthy (payment w) = true ->
  formatDate (date w) = Some fd ->
  let w1 := snd (deleteContribution id w) in
  let w2 := snd (addOrUpdateContribution now now' w1) in
  editingId w1 = editingId w
  /\ editing w1 = Some id
  /\ ~ In id (ids w1)
  /\ contributions w2 = contributions w1
  /\ ~ In id (ids w2)
  /\ editingId w2 = None.
Proof.
  intros He H Hd. cbn zeta.
  set (w1 := snd (deleteContribution id w)).
  assert (He1 : editing w1 = Some id) by exact He.
  assert (Hin : ~ In id (ids w1)) by apply filter_id_absent.
  rewrite (submit_update_absent now now' w1 id fd H Hd He1 Hin). cbn.
  repeat split; try assumption; apply filter_id_absent.
Qed.

Lemma C10_delete_while_editing_witness :
  editing ledger_editing = Some "1709251200003"
  /\ truthy (name ledger_editing) && truthy (payment ledger_editing) = true
  /\ formatDate (date ledger_editing) = Some "2024-03-01"
  /\ editing (snd (deleteContribution "1709251200003" ledger_editing))
     = Some "1709251200003"
  /\ contributions
       (snd (addOrUpdateContribution (t0 + 5) (t0 + 6)
               (snd (deleteContribution "1709251200003" ledger_editing))))
     = contributions (snd (deleteContribution "1709251200003" ledger_editing))
  /\ editingId
       (snd (addOrUpdateContribution (t0 + 5) (t0 + 6)
               (snd (deleteContribution "1709251200003" ledger_editing))))
     = None.
Proof.
  split; [reflexivity|]. split; [reflexivity|]. split; [reflexivity|].
  pose proof (C10_delete_while_editing (t0 + 5) (t0 + 6) ledger_editing
                "1709251200003" "2024-03-01" eq_refl eq_refl eq_refl) as P.
  cbv zeta in P.
  exact (conj (proj1 (proj2 P))
           (conj (proj1 (proj2 (proj2 (proj2 P))))
                 (proj2 (proj2 (proj2 (proj2 (proj2 P))))))).
Defined.

(** ** Persistence *)

Lemma append_assoc (a b c : string) : ((a ++ b) ++ c = a ++ (b ++ c))%string.
Proof.
  induction a as [|x a IH]; simpl; [reflexivity | now rewrite IH].
Qed.

Lemma length_append (a b : string) :
  String.length (a ++ b) = (String.length a + String.length b)%nat.
Proof.
  induction a as [|x a IH]; simpl; [reflexivity | now rewrite IH].
Qed.

Module JSONFacts.
Import JSON.

(** Reading back one quoted code unit. *)
Lemma parse_chars_quote_char (c : ascii) (r : string) :
  parse_chars (quote_char c ++ r) = push c (parse_chars r).
Proof.
  destruct c as [[] [] [] [] [] [] [] []]; reflexivity.
Qed.

Lemma parse_chars_quote_chars (s r : string) :
  parse_chars (quote_chars s ++ dquote ++ r) = Some (s, r).
Proof.
  induction s as [|c s IH]; [reflexivity|].
  cbn [quote_chars]. rewrite append_assoc, parse_chars_quote_char, IH.
  reflexivity.
Qed.

Lemma parse_string_quote (s r : string) :
  parse_string (quote s ++ r) = Some (s, r).
Proof.
  unfold quote. rewrite !append_assoc. apply parse_chars_quote_chars.
Qed.

Lemma skip_ws_quote (s r : string) : skip_ws (quote s ++ r) = quote s ++ r.
Proof. reflexivity. Qed.

Lemma parse_members_more (f : nat) (k v k' r : string) (acc : list (string * string)) :
  parse_members (S f) (quote k ++ String ":" (quote v ++ String "," (quote k' ++ r))) acc
  = parse_members f (quote k' ++ r) ((k, v) :: acc).
Proof.
  cbn [parse_members]. rewrite parse_string_quote.
  change (skip_ws (String ":" ?x)) with (String ":" x).
  change (expect 58 (String ":" ?x)) with (Some x).
  cbv iota. rewrite skip_ws_quote, parse_string_quote. reflexivity.
Qed.

Lemma parse_members_last (f : nat) (k v r : string) (acc : list (string * string)) :
  parse_members (S f) (quote k ++ String ":" (quote v ++ String "}" r)) acc
  = Some (rev ((k, v) :: acc), r).
Proof.
  cbn [parse_members]. rewrite parse_string_quote.
  change (skip_ws (String ":" ?x)) with (String ":" x).
  change (expect 58 (String ":" ?x)) with (Some x).
  cbv iota. rewrite skip_ws_quote, parse_string_quote. reflexivity.
Qed.

(** The text of a record, with the input that follows pushed inside. *)
Lemma stringify_item_append (i : Item.t) (r : string) :
  stringify_item i ++ r =
  String "{" (quote "id" ++ String ":" (quote (Item.id i) ++ String ","
    (quote "name" ++ String ":" (quote (Item.name i) ++ String ","
    (quote "payment" ++ String ":" (quote (Item.payment i) ++ String ","
    (quote "date" ++ String ":" (quote (Item.date i) ++ String "}" r)))))))).
Proof.
  unfold stringify_item. rewrite !append_assoc. reflexivity.
Qed.

Lemma parse_item_stringify (f : nat) (i : Item.t) (r : string) :
  (4 <= f)%nat ->
  parse_item f (stringify_item i ++ r) = Some (i, r).
Proof.
  intros Hf. do 4 (destruct f as [|f]; [lia|]).
  rewrite stringify_item_append. unfold parse_item, parse_object.
  change (expect 123 (String "{" ?x)) with (Some x). cbv iota.
  rewrite skip_ws_quote.
  change (expect 125 (quote "id" ++ ?x)) with (@None string). cbv iota.
  rewrite !parse_members_more, parse_members_last.
  destruct i; reflexivity.
Qed.

Lemma stringify_items_append (i : Item.t) (l : list Item.t) (r : string) :
  stringify_items (i :: l) ++ r =
  stringify_item i
  ++ match l with
     | [] => r
     | _ :: _ => String "," (stringify_items l ++ r)
     end.
Proof.
  destruct l as [|j l]; [reflexivity|].
  cbn [stringify_items]. rewrite !append_assoc. reflexivity.
Qed.

Lemma stringify_items_head (i : Item.t) (l : list Item.t) (r : string) :
  exists x, stringify_items (i :: l) ++ r = String "{" x.
Proof.
  rewrite stringify_items_append, stringify_item_append. eexists. reflexivity.
Qed.

Lemma parse_items_stringify (l : list Item.t) :
  forall (f : nat) (i : Item.t) (acc : list Item.t) (r : string),
    (List.length l + 4 <= f)%nat ->
    parse_items f (stringify_items (i :: l) ++ String "]" r) acc
    = Some ((rev acc ++ i :: l)%list, r).
Proof.
  induction l as [|j l IH]; intros f i acc r Hf;
    (destruct f as [|f]; [simpl in Hf; lia|]);
    rewrite stringify_items_append; cbn [parse_items];
    rewrite parse_item_stringify by (simpl in Hf; lia).
  - reflexivity.
  - change (skip_ws (String "," ?x)) with (String "," x). cbv iota.
    change (N_of_ascii "," =? 44)%N with true. cbv iota.
    destruct (stringify_items_head j l (String "]" r)) as [x Hx].
    rewrite Hx. change (skip_ws (String "{" x)) with (String "{" x).
    rewrite <- Hx, IH by (simpl in Hf; lia).
    cbn [rev]. now rewrite <- app_assoc.
Qed.

Lemma length_stringify_item (i : Item.t) :
  (2 <= String.length (stringify_item i))%nat.
Proof.
  unfold stringify_item. rewrite !length_append. simpl. lia.
Qed.

Lemma length_stringify_items (i : Item.t) (l : list Item.t) :
  (List.length l + 2 <= String.length (stringify_items (i :: l)))%nat.
Proof.
  revert i. induction l as [|j l IH]; intros i.
  - apply length_stringify_item.
  - cbn [stringify_items]. rewrite !length_append.
    specialize (IH j). pose proof (length_stringify_item i).
    cbn [stringify_items List.length] in *. simpl String.length at 2. lia.
Qed.

(** Reading back what [JSON.stringify] wrote gives the collection. *)
Lemma parse_stringify (l : list Item.t) : parse (stringify l) = Some l.
Proof.
  destruct l as [|i l]; [reflexivity|].
  unfold parse, stringify.
  change (skip_ws ("[" ++ ?x)) with (String "[" x).
  unfold parse_array. change (expect 91 (String "[" ?x)) with (Some x).
  cbv iota.
  destruct (stringify_items_head i l (String "]" EmptyString)) as [x Hx].
  rewrite Hx. change (skip_ws (String "{" x)) with (String "{" x).
  change (expect 93 (String "{" x)) with (@None string). cbv iota.
  rewrite <- Hx, parse_items_stringify; [reflexivity|].
  pose proof (length_stringify_items i l) as Hl.
  rewrite !length_append.
  change (String.length "[") with 1%nat. change (String.length "]") with 1%nat.
  lia.
Qed.
End JSONFacts.

(** C7: the snapshot written by the saving effect, read back by the
    loading effect of a fresh mount, gives the collection that was saved:
    the same records, field for field, in the same order. *)
Theorem C7_save_then_load (w : World) (now : Z) :
  JSON.parse (JSON.stringify (contributions w)) = Some (contributions w)
  /\ contributions (loadContributions (storage (saveContributions w)) w)
     = contributions w
  /\ contributions (mount (storage (saveContributions w)) now) = contributions w.
Proof.
  split; [apply JSONFacts.parse_stringify|].
  unfold mount. cbn [saveContributions storage loadContributions].
  rewrite JSONFacts.parse_stringify. split; reflexivity.
Qed.

(** ** Adding *)

Lemma mount_form (stored : option string) (now : Z) :
  name (mount stored now) = EmptyString
  /\ payment (mount stored now) = EmptyString
  /\ date (mount stored now) = Some now
  /\ editingId (mount stored now) = None.
Proof.
  unfold mount, loadContributions.
  destruct stored as [j|]; [destruct (JSON.parse j)|]; repeat split.
Qed.

Lemma formatDate_valid (tv : Z) : exists fd, formatDate (Some tv) = Some fd.
Proof.
  unfold formatDate, JsDate.toISOString.
  destruct (JsDate.civil_from_days (tv / JsDate.msPerDay)) as [[y m] d].
  eexists. reflexivity.
Qed.

(** A new id that differs from the ids in the collection keeps them
    pairwise distinct. *)
Lemma add_fresh_id (now now' : Z) (w : World) (fd : string) :
  truthy (name w) && truthy (payment w) = true ->
  formatDate (date w) = Some fd ->
  editing w = None ->
  NoDup (ids w) ->
  ~ In (Number_toString now) (ids w) ->
  NoDup (ids (snd (addOrUpdateContribution now now' w))).
Proof.
  intros H Hd He Hn Hin. rewrite (submit_add now now' w fd H Hd He).
  unfold ids. cbn. rewrite map_app. cbn.
  apply NoDup_app; [exact Hn | repeat constructor; intros [] | ].
  intros a Ha [E|[]]. subst. now apply Hin.
Qed.

(** C4 fails on the code: the id is the reading of the clock in
    milliseconds, so two adds that read the same millisecond give two records
    the same id. *)
Lemma C4_same_tick_same_id :
  contributions ledger_same_tick =
  [Item.mk "1709251200001" "Alice" "50.00" "2024-03-01";
   Item.mk "1709251200001" "Bob" "25.50" "2024-03-01"]
  /\ ~ NoDup (ids ledger_same_tick).
Proof.
  split; [vm_compute; reflexivity|].
  intros H. vm_compute in H. inversion H as [|? ? Hin _]. apply Hin. now left.
Qed.

(** ** The list shown *)

(** C5: the list shown is the collection rearranged so that the dates
    never increase from one row to the next, compared code unit by code
    unit, and the records of one date keep the order in which they stand in
    the collection; records A (2024-01-05), B (2024-01-10), C (2024-01-05)
    inserted in this order are shown as B, A, C. *)
Theorem C5_list_sorted_and_stable (w : World) :
  StronglySorted (fun a b => String.leb (Item.date b) (Item.date a) = true)
                 (sortedContributions w)
  /\ Permutation (sortedContributions w) (contributions w)
  /\ (forall d : string,
        filter (fun i => (Item.date i =? d)%string) (sortedContributions w)
        = filter (fun i => (Item.date i =? d)%string) (contributions w))
  /\ (forall a b c : Item.t,
        Item.date a = "2024-01-05" ->
        Item.date b = "2024-01-10" ->
        Item.date c = "2024-01-05" ->
        contributions w = [a; b; c] ->
        sortedContributions w = [b; a; c]).
Proof.
  unfold sortedContributions.
  set (cmp := fun a b : Item.t => localeCompare (Item.date b) (Item.date a)).
  repeat split.
  - assert (S : StronglySorted (fun a b => cmp a b <= 0)
                               (Array_sort cmp (contributions w))).
    { apply Array_sort_sorted; unfold cmp.
      - intros x y. apply localeCompare_total.
      - intros x y z H1 H2. exact (localeCompare_trans _ _ _ H2 H1). }
    induction S as [|x l _ IH Hf]; constructor; [exact IH|].
    eapply Forall_impl; [|exact Hf]. intros y Hy. unfold cmp in Hy.
    apply localeCompare_le in Hy. unfold String.leb.
    now destruct (String.compare (Item.date y) (Item.date x)).
  - apply Array_sort_perm.
  - intros d. apply Array_sort_filter. intros x y Hx Hy.
    apply String.eqb_eq in Hx, Hy. unfold cmp. rewrite Hx, Hy.
    unfold localeCompare. now rewrite string_compare_refl.
  - intros [ia na pa da] [ib nb pb db] [ic nc pc dc] Ha Hb Hc Hw.
    cbn [Item.date] in Ha, Hb, Hc. subst da db dc. rewrite Hw. reflexivity.
Qed.

Lemma C5_list_sorted_and_stable_witness :
  contributions ledger_abc_dates =
  [Item.mk "1709251200001" "A" "1" "2024-01-05";
   Item.mk "1709251200003" "B" "2" "2024-01-10";
   Item.mk "1709251200005" "C" "3" "2024-01-05"]
  /\ sortedContributions ledger_abc_dates =
     [Item.mk "1709251200003" "B" "2" "2024-01-10";
      Item.mk "1709251200001" "A" "1" "2024-01-05";
      Item.mk "1709251200005" "C" "3" "2024-01-05"].
Proof.
  split; [reflexivity|].
  exact (proj2 (proj2 (proj2 (C5_list_sorted_and_stable ledger_abc_dates)))
           (Item.mk "1709251200001" "A" "1" "2024-01-05")
           (Item.mk "1709251200003" "B" "2" "2024-01-10")
           (Item.mk "1709251200005" "C" "3" "2024-01-05")
           eq_refl eq_refl eq_refl eq_refl).
Defined.


(** ** The total *)

Lemma add_NaN_l (x : Num.number) : Num.add Num.NaN x = Num.NaN.
Proof. reflexivity. Qed.

Lemma add_NaN_r (x : Num.number) : Num.add x Num.NaN = Num.NaN.
Proof. destruct x; reflexivity. Qed.

Lemma sum_from_NaN (l : list Item.t) :
  fold_left (fun sum item => Num.add sum (Num.parseFloat (Item.payment item)))
            l Num.NaN = Num.NaN.
Proof.
  induction l as [|x l IH]; [reflexivity|]. cbn [fold_left].
  now rewrite add_NaN_l.
Qed.

Lemma sum_with_NaN (l : list Item.t) (item : Item.t) (acc : Num.number) :
  In item l ->
  Num.parseFloat (Item.payment item) = Num.NaN ->
  fold_left (fun sum item => Num.add sum (Num.parseFloat (Item.payment item)))
            l acc = Num.NaN.
Proof.
  revert acc. induction l as [|x l IH]; intros acc Hin Hp; [destruct Hin|].
  cbn [fold_left]. destruct Hin as [E|Hin].
  - subst x. rewrite Hp, add_NaN_r. apply sum_from_NaN.
  - now apply IH.
Qed.

(** C9: whatever non-empty amount string is typed, submitting it with a
    non-empty name on a freshly mounted ledger reaches a state that holds a
    record with that string; and in every state that holds a record whose
    amount [parseFloat] reads as NaN, the total is NaN and is shown as
    [NaN]. *)
Theorem C9_unparsed_amount_makes_total_NaN :
  (forall (stored : option string) (now t t' : Z) (n p : string),
      truthy n = true -> truthy p = true ->
      let w := run [ChangeName n; ChangePayment p; Submit t t'] (mount stored now) in
      reachable w
      /\ exists item, In item (contributions w)
                      /\ Item.name item = n /\ Item.payment item = p)
  /\
  (forall (w : World) (item : Item.t),
      In item (contributions w) ->
      Num.parseFloat (Item.payment item) = Num.NaN ->
      totalPayment w = Num.NaN /\ totalText w = Some "NaN")
  /\
  (exists (w : World) (item : Item.t),
      reachable w /\ In item (contributions w)
      /\ Num.parseFloat (Item.payment item) = Num.NaN).
Proof.
  split; [|split].
  3: { exists (run [ChangeName "Bob"; ChangePayment "abc"; Submit (t0 + 1) (t0 + 2)]
                   (mount None t0)),
              (Item.mk "1709251200001" "Bob" "abc" "2024-03-01").
       split; [|split].
       - exists None, t0,
           [ChangeName "Bob"; ChangePayment "abc"; Submit (t0 + 1) (t0 + 2)].
         reflexivity.
       - left. vm_compute. reflexivity.
       - reflexivity. }
  - intros stored now t t' n p Hn Hp w. split.
    + now exists stored, now, [ChangeName n; ChangePayment p; Submit t t'].
    + subst w. destruct (mount_form stored now) as [_ [_ [Hd He]]].
      destruct (formatDate_valid now) as [fd Hfd].
      cbn [run fold_left step].
      set (w2 := setPayment p (setName n (mount stored now))).
      assert (H : truthy (name w2) && truthy (payment w2) = true)
        by (cbn; now rewrite Hn, Hp).
      assert (Hd2 : formatDate (date w2) = Some fd) by (cbn; now rewrite Hd).
      assert (He2 : editing w2 = None) by (unfold editing; cbn; now rewrite He).
      rewrite (submit_add t t' w2 fd H Hd2 He2). cbn.
      exists (Item.mk (Number_toString t) n p fd).
      split; [|split; reflexivity].
      apply in_or_app. right. now left.
  - intros w item Hin Hp.
    assert (Ht : totalPayment w = Num.NaN) by exact (sum_with_NaN _ item _ Hin Hp).
    split; [exact Ht|]. unfold totalText. now rewrite Ht.
Qed.

Lemma C9_unparsed_amount_makes_total_NaN_witness :
  truthy "Bob" = true /\ truthy "abc" = true
  /\ reachable (run [ChangeName "Bob"; ChangePayment "abc"; Submit (t0 + 1) (t0 + 2)]
                    (mount None t0))
  /\ In (Item.mk "1709251200001" "Bob" "abc" "2024-03-01")
        (contributions
           (run [ChangeName "Bob"; ChangePayment "abc"; Submit (t0 + 1) (t0 + 2)]
                (mount None t0)))
  /\ Num.parseFloat "abc" = Num.NaN
  /\ totalText (run [ChangeName "Bob"; ChangePayment "abc"; Submit (t0 + 1) (t0 + 2)]
                    (mount None t0)) = Some "NaN".
Proof.
  assert (Hin : In (Item.mk "1709251200001" "Bob" "abc" "2024-03-01")
        (contributions
           (run [ChangeName "Bob"; ChangePayment "abc"; Submit (t0 + 1) (t0 + 2)]
                (mount None t0)))) by (left; reflexivity).
  split; [reflexivity|]. split; [reflexivity|].
  split;
    [exact (proj1 (proj1 C9_unparsed_amount_makes_total_NaN None t0 (t0 + 1) (t0 + 2)
                     "Bob" "abc" eq_refl eq_refl))|].
  split; [exact Hin|]. split; [reflexivity|].
  destruct C9_unparsed_amount_makes_total_NaN as [_ [P _]].
  exact (proj2 (P _ _ Hin eq_refl)).
Defined.

(** ** Exact sums of whole numbers *)

Section Binary64.

Local Abbreviation digits m := (Zpos (digits2_pos m)).

Lemma digits2_pos_size (p : positive) : digits2_pos p = Pos.size p.
Proof. induction p as [p IH|p IH|]; simpl; now rewrite ?IH. Qed.

Lemma digits_log2 (p : positive) : digits p = Z.log2 (Zpos p) + 1.
Proof.
  rewrite digits2_pos_size. destruct p as [p|p|]; simpl; try reflexivity; lia.
Qed.

Lemma iter_xO_pow2 (m n : positive) :
  Zpos (Pos.iter xO m n) = Zpos m * 2 ^ Zpos n.
Proof.
  induction n as [|n IH] using Pos.peano_ind.
  - simpl. lia.
  - rewrite Pos.iter_succ, Pos2Z.inj_succ, Z.pow_succ_r by lia.
    rewrite Pos2Z.inj_xO, IH. ring.
Qed.

Lemma iter_pos_iter {A : Type} (f : A -> A) (n : positive) (x : A) :
  iter_pos f n x = Pos.iter f x n.
Proof.
  revert x. induction n as [n IH|n IH|]; intros x; simpl.
  - rewrite !IH, <- !Pos.iter_swap. reflexivity.
  - now rewrite !IH.
  - reflexivity.
Qed.

(** Shifting out zero bits loses nothing. *)
Lemma shr_zero_bits (m n : positive) :
  iter_pos shr_1 n (Build_shr_record (Zpos (Pos.iter xO m n)) false false)
  = Build_shr_record (Zpos m) false false.
Proof.
  rewrite iter_pos_iter.
  induction n as [|n IH] using Pos.peano_ind.
  - reflexivity.
  - rewrite !Pos.iter_succ, <- Pos.iter_swap. cbn [shr_1 orb]. exact IH.
Qed.

Lemma fexp_normal (e : Z) :
  -1074 <= e -> fexp Num.prec Num.emax (53 + e) = e.
Proof. unfold fexp, emin, Num.prec, Num.emax. lia. Qed.

(** A mantissa of 53 bits with its exponent in range is left as it is. *)
Lemma round_aux_canonical (s : bool) (m : positive) (e : Z) :
  digits m = 53 -> -1074 <= e <= 971 ->
  binary_round_aux Num.prec Num.emax s (Zpos m) e loc_Exact = S754_finite s m e.
Proof.
  intros Hd He. unfold binary_round_aux, shr_fexp. cbn [Zdigits2 shr_record_of_loc].
  rewrite Hd, fexp_normal, Z.sub_diag by lia.
  cbn [shr shr_m loc_of_shr_record round_nearest_even Zdigits2 shr_record_of_loc].
  rewrite Hd, fexp_normal, Z.sub_diag by lia. cbn [shr shr_m].
  unfold Num.emax, Num.prec.
  destruct (Z.leb_spec e (1024 - 53)); [reflexivity | lia].
Qed.

Lemma digits_shift (m m' : positive) (k : Z) :
  0 <= k -> Zpos m' = Zpos m * 2 ^ k -> digits m' = digits m + k.
Proof.
  intros Hk E. rewrite !digits_log2, E, Z.log2_mul_pow2 by lia. lia.
Qed.

(** Zero bits below a mantissa of 53 bits are shifted out exactly. *)
Lemma round_aux_shift (s : bool) (m : positive) (n : positive) (e : Z) :
  digits m = 53 -> -1074 <= e + Zpos n <= 971 ->
  binary_round_aux Num.prec Num.emax s (Zpos (Pos.iter xO m n)) e loc_Exact
  = S754_finite s m (e + Zpos n).
Proof.
  intros Hd He. unfold binary_round_aux, shr_fexp. cbn [Zdigits2 shr_record_of_loc].
  rewrite (digits_shift m (Pos.iter xO m n) (Zpos n)) by (try apply iter_xO_pow2; lia).
  rewrite Hd.
  replace (53 + Z.pos n + e) with (53 + (e + Z.pos n)) by lia.
  rewrite fexp_normal by lia.
  replace (e + Z.pos n - e) with (Zpos n) by lia.
  cbn [shr]. rewrite shr_zero_bits.
  cbn [shr_m loc_of_shr_record round_nearest_even Zdigits2 shr_record_of_loc].
  rewrite Hd, fexp_normal, Z.sub_diag by lia. cbn [shr shr_m].
  unfold Num.emax, Num.prec.
  destruct (Z.leb_spec (e + Z.pos n) (1024 - 53)); [reflexivity | lia].
Qed.


Lemma shl_align_le (m : positive) (e e' : Z) :
  e' <= e ->
  exists m', shl_align m e e' = (m', e') /\ Zpos m' = Zpos m * 2 ^ (e - e').
Proof.
  intros H. unfold shl_align. destruct (e' - e) as [|d|d] eqn:E; try lia.
  - exists m. replace e' with e by lia. rewrite Z.sub_diag. split; [reflexivity | lia].
  - exists (Pos.iter xO m d). split; [reflexivity|].
    rewrite iter_xO_pow2. f_equal. f_equal. lia.
Qed.

Lemma shl_align_ge (m : positive) (e e' : Z) :
  e <= e' -> shl_align m e e' = (m, e).
Proof.
  intros H. unfold shl_align. destruct (e' - e) as [|d|d] eqn:E; try lia; reflexivity.
Qed.

(** Rounding [m * 2^e] when it is the number [m' * 2^e'] of 53 bits. *)
Lemma binary_round_exact_shl (s : bool) (m m' : positive) (e e' : Z) :
  e' <= e -> Zpos m' = Zpos m * 2 ^ (e - e') ->
  digits m' = 53 -> -1074 <= e' <= 971 ->
  binary_round Num.prec Num.emax s m e = S754_finite s m' e'.
Proof.
  intros Hle Hv Hd He. unfold binary_round.
  pose proof (digits_shift m m' (e - e') ltac:(lia) Hv) as Hdm.
  replace (digits m + e) with (53 + e') by lia.
  rewrite fexp_normal by lia.
  destruct (shl_align_le m e e' Hle) as [m'' [E Hv']]. rewrite E.
  assert (m'' = m') by lia. subst m''.
  now apply round_aux_canonical.
Qed.

Lemma binary_round_exact_shr (s : bool) (m m' : positive) (e e' : Z) :
  e <= e' -> Zpos m = Zpos m' * 2 ^ (e' - e) ->
  digits m' = 53 -> -1074 <= e' <= 971 ->
  binary_round Num.prec Num.emax s m e = S754_finite s m' e'.
Proof.
  intros Hle Hv Hd He. unfold binary_round.
  pose proof (digits_shift m' m (e' - e) ltac:(lia) Hv) as Hdm.
  replace (digits m + e) with (53 + e') by lia.
  rewrite fexp_normal by lia.
  rewrite shl_align_ge by exact Hle.
  destruct (e' - e) as [|n|n] eqn:E; try lia.
  - assert (m = m') by lia. subst m'. replace e' with e by lia.
    apply round_aux_canonical; [exact Hd | lia].
  - rewrite <- iter_xO_pow2 in Hv. injection Hv as ->.
    replace e' with (e + Zpos n) by lia.
    apply round_aux_shift; [exact Hd | lia].
Qed.

Lemma normal_form_exists (n : Z) :
  0 < n < 2 ^ 53 -> exists m e, normal_form n m e.
Proof.
  intros Hn.
  assert (Hl : 0 <= Z.log2 n < 53).
  { split; [apply Z.log2_nonneg | apply Z.log2_lt_pow2; lia]. }
  set (e := Z.log2 n - 52).
  assert (Hp : 0 < n * 2 ^ (- e)) by (apply Z.mul_pos_pos; [lia | apply Z.pow_pos_nonneg; lia]).
  exists (Z.to_pos (n * 2 ^ (- e))), e. unfold normal_form.
  rewrite digits_log2, Z2Pos.id, Z.log2_mul_pow2 by lia.
  repeat split; lia.
Qed.

Lemma normal_form_log2 (n : Z) (m : positive) (e : Z) :
  0 < n -> normal_form n m e -> e = Z.log2 n - 52.
Proof.
  intros Hn [Hd [He Hv]]. rewrite digits_log2, Hv, Z.log2_mul_pow2 in Hd by lia. lia.
Qed.

Lemma of_Z_normal_form (n : Z) (m : positive) (e : Z) :
  0 < n -> normal_form n m e -> Num.of_Z n = S754_finite false m e.
Proof.
  intros Hn [Hd [He Hv]]. destruct n as [|p|p]; try lia.
  unfold Num.of_Z. cbn [binary_normalize].
  apply binary_round_exact_shl; try lia. now rewrite Z.sub_0_l.
Qed.

(** The sum of two whole numbers is exact as long as it stays below
    [2^53]. *)
Lemma add_of_Z (a b : Z) :
  0 <= a -> 0 <= b -> a + b < 2 ^ 53 ->
  Num.add (Num.of_Z a) (Num.of_Z b) = Num.of_Z (a + b).
Proof.
  intros Ha Hb Hs.
  destruct (Z.eq_dec a 0) as [->|Na].
  { destruct (Z.eq_dec b 0) as [->|Nb]; [reflexivity|].
    destruct (normal_form_exists b ltac:(lia)) as [mb [eb Fb]].
    rewrite Z.add_0_l, (of_Z_normal_form b mb eb) by (lia || assumption).
    reflexivity. }
  destruct (normal_form_exists a ltac:(lia)) as [ma [ea Fa]].
  destruct (Z.eq_dec b 0) as [->|Nb].
  { rewrite Z.add_0_r, (of_Z_normal_form a ma ea) by (lia || assumption).
    reflexivity. }
  destruct (normal_form_exists b ltac:(lia)) as [mb [eb Fb]].
  destruct (normal_form_exists (a + b) ltac:(lia)) as [mc [ec Fc]].
  rewrite (of_Z_normal_form a ma ea), (of_Z_normal_form b mb eb),
    (of_Z_normal_form (a + b) mc ec) by (lia || assumption).
  pose proof (normal_form_log2 a ma ea ltac:(lia) Fa) as La.
  pose proof (normal_form_log2 b mb eb ltac:(lia) Fb) as Lb.
  pose proof (normal_form_log2 (a + b) mc ec ltac:(lia) Fc) as Lc.
  pose proof (Z.log2_le_mono a (a + b) ltac:(lia)) as Ma.
  pose proof (Z.log2_le_mono b (a + b) ltac:(lia)) as Mb.
  destruct Fa as [Da [Ra Va]], Fb as [Db [Rb Vb]], Fc as [Dc [Rc Vc]].
  unfold Num.add. cbn [SFadd cond_Zopp].
  set (ez := Z.min ea eb).
  destruct (shl_align_le ma ea ez ltac:(lia)) as [ma' [Ea Va']].
  destruct (shl_align_le mb eb ez ltac:(lia)) as [mb' [Eb Vb']].
  rewrite Ea, Eb. cbn [fst]. cbn [Z.add binary_normalize].
  apply binary_round_exact_shr; try lia.
  rewrite Pos2Z.inj_add, Va', Vb', Va, Vb, Vc.
  rewrite <- !Z.mul_assoc, <- !Z.pow_add_r by lia.
  replace (- ea + (ea - ez)) with (- ez) by lia.
  replace (- eb + (eb - ez)) with (- ez) by lia.
  replace (- ec + (ec - ez)) with (- ez) by lia.
  ring.
Qed.


Lemma toFixed2_of_Z (n : Z) :
  0 <= n < 2 ^ 53 ->
  Num.toFixed2 (Num.of_Z n) = Some (Number_toString n ++ ".00").
Proof.
  intros Hn. destruct (Z.eq_dec n 0) as [->|N0]; [reflexivity|].
  destruct (normal_form_exists n ltac:(lia)) as [m [e F]].
  rewrite (of_Z_normal_form n m e) by (lia || assumption).
  destruct F as [_ [He Hv]]. unfold Num.toFixed2.
  assert (Hp : 0 < 2 ^ (- e)) by (apply Z.pow_pos_nonneg; lia).
  assert (H21 : 2 ^ 53 < 10 ^ 21) by reflexivity.
  assert (E : (if 0 <=? e then 100 * Z.pos m * 2 ^ e
               else (200 * Z.pos m + 2 ^ (- e)) / (2 * 2 ^ (- e))) = n * 100).
  { destruct (Z.leb_spec 0 e).
    - replace e with 0 in * by lia. cbn in Hv. lia.
    - rewrite Hv.
      replace (200 * (n * 2 ^ (- e)) + 2 ^ (- e)) with ((200 * n + 1) * 2 ^ (- e)) by ring.
      rewrite Z.div_mul_cancel_r by lia.
      replace (200 * n + 1) with (1 + (n * 100) * 2) by ring.
      rewrite Z.div_add by lia. reflexivity. }
  rewrite E.
  assert (B : (if 0 <=? e then 10 ^ 21 <=? Z.pos m * 2 ^ e
               else 10 ^ 21 * 2 ^ (- e) <=? Z.pos m) = false).
  { destruct (Z.leb_spec 0 e).
    - replace e with 0 in * by lia. cbn in Hv. apply Z.leb_gt. lia.
    - apply Z.leb_gt. rewrite Hv. apply Z.mul_lt_mono_pos_r; lia. }
  rewrite B. unfold Num.two_places.
  rewrite Z.div_mul, Z.mod_mul by lia. reflexivity.
Qed.

Lemma sumZ_perm (l l' : list Z) : Permutation l l' -> sumZ l = sumZ l'.
Proof.
  induction 1; unfold sumZ in *; cbn [fold_right] in *; lia.
Qed.

Lemma sumZ_nonneg (l : list Z) : Forall (fun n => 0 <= n) l -> 0 <= sumZ l.
Proof.
  induction 1; unfold sumZ in *; cbn [fold_right] in *; lia.
Qed.

(** The accumulator of [reduce] over whole amounts is their exact sum. *)
Lemma sum_of_whole_amounts (amount : string -> Z) (l : list Item.t) :
  forall acc : Z,
    0 <= acc ->
    (forall p, In p (map Item.payment l) ->
               0 <= amount p /\ Num.parseFloat p = Num.of_Z (amount p)) ->
    acc + sumZ (map amount (map Item.payment l)) < 2 ^ 53 ->
    fold_left (fun sum item => Num.add sum (Num.parseFloat (Item.payment item)))
              l (Num.of_Z acc)
    = Num.of_Z (acc + sumZ (map amount (map Item.payment l))).
Proof.
  induction l as [|x l IH]; intros acc Ha Hw Hs.
  - cbn. now rewrite Z.add_0_r.
  - destruct (Hw (Item.payment x) (or_introl eq_refl)) as [Hx Px].
    assert (Hl : 0 <= sumZ (map amount (map Item.payment l))).
    { apply sumZ_nonneg, Forall_forall. intros n Hn.
      apply in_map_iff in Hn. destruct Hn as [p [<- Hp]].
      apply Hw. now right. }
    assert (E : sumZ (map amount (map Item.payment (x :: l)))
                = amount (Item.payment x) + sumZ (map amount (map Item.payment l)))
      by reflexivity.
    rewrite E in *. cbn [fold_left].
    rewrite Px, add_of_Z by lia.
    rewrite IH; [f_equal; lia | lia | intros p Hp; apply Hw; now right | lia].
Qed.

End Binary64.

(** Whole amounts beyond a billion: when every current amount parses
    exactly to a non-negative whole number and these whole numbers add up to
    less than [2^53], the total is exactly their sum, it is shown as that sum
    followed by [.00], and every state with the same multiset of amount
    strings has the same total. *)
Lemma total_of_whole_amounts (amount : string -> Z) (w w' : World) :
  (forall p, In p (payments w) ->
             0 <= amount p /\ Num.parseFloat p = Num.of_Z (amount p)) ->
  sumZ (map amount (payments w)) < 2 ^ 53 ->
  Permutation (payments w') (payments w) ->
  totalPayment w = Num.of_Z (sumZ (map amount (payments w)))
  /\ totalText w = Some (Number_toString (sumZ (map amount (payments w))) ++ ".00")
  /\ totalPayment w' = totalPayment w
  /\ totalText w' = totalText w.
Proof.
  intros Hw Hs Hp.
  assert (H0 : 0 <= sumZ (map amount (payments w))).
  { apply sumZ_nonneg, Forall_forall. intros n Hn.
    apply in_map_iff in Hn. destruct Hn as [p [<- Hin]]. now apply Hw. }
  assert (T : totalPayment w = Num.of_Z (sumZ (map amount (payments w)))).
  { exact (sum_of_whole_amounts amount (contributions w) 0 (Z.le_refl 0) Hw Hs). }
  assert (T' : totalPayment w' = Num.of_Z (sumZ (map amount (payments w)))).
  { rewrite <- (sumZ_perm _ _ (Permutation_map amount Hp)).
    apply (sum_of_whole_amounts amount (contributions w') 0 (Z.le_refl 0)).
    - intros p Hin. apply Hw. exact (Permutation_in p Hp Hin).
    - change (sumZ (map amount (payments w')) < 2 ^ 53).
      rewrite (sumZ_perm _ _ (Permutation_map amount Hp)). exact Hs. }
  repeat split.
  - exact T.
  - unfold totalText. rewrite T. apply toFixed2_of_Z. lia.
  - now rewrite T, T'.
  - unfold totalText. now rewrite T, T'.
Qed.

Example total_of_whole_amounts_example :
  payments ledger_whole = ["50"; "25"; "7"]
  /\ payments ledger_whole' = ["7"; "50"; "25"]
  /\ sumZ (map digits_amount (payments ledger_whole)) = 82
  /\ totalText ledger_whole = Some "82.00"
  /\ totalText ledger_whole' = totalText ledger_whole.
Proof.
  assert (E1 : payments ledger_whole = ["50"; "25"; "7"])
    by (vm_compute; reflexivity).
  assert (E2 : payments ledger_whole' = ["7"; "50"; "25"])
    by (vm_compute; reflexivity).
  assert (Hw : forall p, In p (payments ledger_whole) ->
                         0 <= digits_amount p
                         /\ Num.parseFloat p = Num.of_Z (digits_amount p)).
  { intros p Hin. rewrite E1 in Hin.
    destruct Hin as [<-|[<-|[<-|[]]]];
      (split; [vm_compute; discriminate | vm_compute; reflexivity]). }
  assert (Hs : sumZ (map digits_amount (payments ledger_whole)) < 2 ^ 53)
    by (vm_compute; reflexivity).
  assert (Hp : Permutation (payments ledger_whole') (payments ledger_whole))
    by (rewrite E1, E2; exact (Permutation_cons_append ["50"; "25"] "7")).
  assert (E : sumZ (map digits_amount (payments ledger_whole)) = 82)
    by (vm_compute; reflexivity).
  split; [exact E1|]. split; [exact E2|].
  split; [exact E|].
  pose proof (total_of_whole_amounts digits_amount ledger_whole ledger_whole'
                Hw Hs Hp) as P.
  rewrite E in P. destruct P as [_ [P1 [_ P2]]].
  split; [|exact P2].
  rewrite P1. vm_compute. reflexivity.
Qed.

(** Linear arithmetic with the divisions and remainders spelled out. *)
Ltac div_lia := Z.to_euclidean_division_equations; lia.
(** ** Sums of amounts of money *)

Section Rounding.

Local Abbreviation digits m := (Zpos (digits2_pos m)).

Lemma digits_spec (p : positive) :
  2 ^ (digits p - 1) <= Zpos p < 2 ^ digits p.
Proof.
  rewrite digits_log2. replace (Z.log2 (Z.pos p) + 1 - 1) with (Z.log2 (Zpos p)) by lia.
  apply Z.log2_spec. lia.
Qed.

Lemma digits_unique (p : positive) (d : Z) :
  1 <= d -> 2 ^ (d - 1) <= Zpos p < 2 ^ d -> digits p = d.
Proof.
  intros Hd H. rewrite digits_log2.
  rewrite (Z.log2_unique (Zpos p) (d - 1)); [lia | lia |].
  now replace (Z.succ (d - 1)) with d by lia.
Qed.

Lemma shr_1_m (r : shr_record) :
  0 <= shr_m r -> shr_m (shr_1 r) = shr_m r / 2 /\ 0 <= shr_m (shr_1 r).
Proof.
  destruct r as [[|[p|p|]|p] b s]; cbn [shr_m shr_1]; intros H; try lia.
  - split; [reflexivity | lia].
  - rewrite Pos2Z.inj_xI. split; [div_lia | lia].
  - rewrite Pos2Z.inj_xO. split; [div_lia | lia].
  - split; [reflexivity | lia].
Qed.

(** Shifting [n] bits out leaves the quotient by [2^n]. *)
Lemma shr_m_iter (n : positive) (r : shr_record) :
  0 <= shr_m r ->
  shr_m (iter_pos shr_1 n r) = shr_m r / 2 ^ Zpos n.
Proof.
  intros H. rewrite iter_pos_iter.
  assert (G : shr_m (Pos.iter shr_1 r n) = shr_m r / 2 ^ Zpos n
              /\ 0 <= shr_m (Pos.iter shr_1 r n)).
  { induction n as [|n IH] using Pos.peano_ind.
    - cbn [Pos.iter]. destruct (shr_1_m r H) as [E P].
      split; [rewrite E; reflexivity | exact P].
    - rewrite Pos.iter_succ. destruct IH as [E P].
      destruct (shr_1_m _ P) as [E' P']. split; [|exact P'].
      rewrite E', E, Pos2Z.inj_succ, Z.pow_succ_r, Z.div_div by lia.
      f_equal. ring. }
  exact (proj1 G).
Qed.

Lemma round_nearest_even_bracket (m : Z) (l : location) :
  round_nearest_even m l = m \/ round_nearest_even m l = m + 1.
Proof.
  destruct l as [|[]]; cbn; try (now left); try (now right).
  destruct (Z.even m); [now left | now right].
Qed.

(** Rounding a mantissa of at least 53 bits keeps its leading 53 bits or
    moves to the next number: with [t] bits too many and [F] the quotient by
    [2^t], the result is [F] or [F + 1] in units of [2^(e + t)]. *)
Lemma round_aux_bracket (sx : bool) (q : positive) (e : Z) (l : location) :
  53 <= digits q ->
  -1074 <= e + (digits q - 53) -> e + (digits q - 53) + 1 <= 971 ->
  exists (m' : positive) (e' : Z),
    binary_round_aux Num.prec Num.emax sx (Zpos q) e l = S754_finite sx m' e'
    /\ digits m' = 53
    /\ e + (digits q - 53) <= e' <= e + (digits q - 53) + 1
    /\ (Zpos m' * 2 ^ (e' - (e + (digits q - 53))) = Zpos q / 2 ^ (digits q - 53)
        \/ Zpos m' * 2 ^ (e' - (e + (digits q - 53))) = Zpos q / 2 ^ (digits q - 53) + 1).
Proof.
  intros Hq Hlo Hhi. set (t := digits q - 53) in *.
  set (F := Zpos q / 2 ^ t).
  assert (HF : 2 ^ 52 <= F < 2 ^ 53).
  { pose proof (digits_spec q) as S. replace (digits q) with (53 + t) in S by lia.
    replace (53 + t - 1) with (52 + t) in S by lia.
    rewrite !Z.pow_add_r in S by lia.
    assert (0 < 2 ^ t) by (apply Z.pow_pos_nonneg; lia).
    subst F. split.
    - apply Z.div_le_lower_bound; lia.
    - apply Z.div_lt_upper_bound; lia. }
  unfold binary_round_aux, shr_fexp. cbn [Zdigits2].
  assert (E1 : fexp Num.prec Num.emax (digits q + e) - e = t).
  { unfold fexp, emin, Num.prec, Num.emax. lia. }
  rewrite E1.
  (* the first shift *)
  assert (S1 : exists r1, shr (shr_record_of_loc (Zpos q) l) e t = (r1, e + t)
                          /\ shr_m r1 = F).
  { assert (M0 : shr_m (shr_record_of_loc (Zpos q) l) = Zpos q)
      by (destruct l as [|[]]; reflexivity).
    destruct t as [|n|n] eqn:Et; try lia.
    - exists (shr_record_of_loc (Zpos q) l). cbn [shr]. split.
      + f_equal. lia.
      + subst F. rewrite M0. cbn. now rewrite Z.div_1_r.
    - eexists. cbn [shr]. split; [reflexivity|].
      rewrite shr_m_iter by (rewrite M0; lia). now rewrite M0. }
  destruct S1 as [r1 [S1 M1]]. rewrite S1. rewrite M1.
  set (m1 := round_nearest_even F (loc_of_shr_record r1)).
  assert (Hm1 : m1 = F \/ m1 = F + 1) by apply round_nearest_even_bracket.
  cbn [shr_record_of_loc].
  assert (m1pos : 0 < m1) by lia.
  destruct m1 as [|p1|p1] eqn:Ep; try lia.
  cbn [Zdigits2].
  destruct (Z.eq_dec (Zpos p1) (2 ^ 53)) as [Top|NTop].
  - (* the mantissa overflowed to 2^53: one more exact shift *)
    assert (D : digits p1 = 54) by (apply digits_unique; [lia | rewrite Top; cbn; lia]).
    rewrite D.
    assert (E2 : fexp Num.prec Num.emax (54 + (e + t)) - (e + t) = 1).
    { unfold fexp, emin, Num.prec, Num.emax. lia. }
    rewrite E2. cbn [shr iter_pos].
    assert (P1 : p1 = (4503599627370496~0)%positive) by (cbn in Top; lia).
    rewrite P1. cbn [shr_1 shr_m orb].
    unfold Num.emax, Num.prec.
    destruct (Z.leb_spec (e + t + 1) (1024 - 53)); [|lia].
    exists 4503599627370496%positive, (e + t + 1).
    split; [reflexivity|]. split; [reflexivity|]. split; [lia|].
    right. replace (e + t + 1 - (e + t)) with 1 by lia.
    destruct Hm1 as [Hm1|Hm1]; [lia|]. rewrite <- Hm1, P1. reflexivity.
  - assert (D : digits p1 = 53) by (apply digits_unique; lia).
    rewrite D.
    assert (E2 : fexp Num.prec Num.emax (53 + (e + t)) - (e + t) = 0).
    { unfold fexp, emin, Num.prec, Num.emax. lia. }
    rewrite E2. cbn [shr shr_m].
    unfold Num.emax, Num.prec.
    destruct (Z.leb_spec (e + t) (1024 - 53)); [|lia].
    exists p1, (e + t). split; [reflexivity|]. split; [exact D|]. split; [lia|].
    rewrite Z.sub_diag, Z.mul_1_r. exact Hm1.
Qed.

End Rounding.

Section MoneySums.

Local Abbreviation digits m := (Zpos (digits2_pos m)).

Lemma div_bracket (a b : Z) : 0 < b -> a / b * b <= a < (a / b + 1) * b.
Proof.
  intros Hb. pose proof (Z.div_mod a b ltac:(lia)) as E.
  pose proof (Z.mod_pos_bound a b Hb) as M. nia.
Qed.

Lemma pow2_lt_exp (a b : Z) : 0 <= a -> 0 <= b -> 2 ^ a < 2 ^ b -> a < b.
Proof. intros Ha Hb H. apply (Z.pow_lt_mono_r_iff 2); lia. Qed.

(** The sum of two numbers in the range of money is in that range and off
    the exact sum by at most [2^-22], as long as it stays below [2^31]. *)
Lemma add_bracket (x y : Num.number) :
  in_money_range x -> in_money_range y ->
  scaled x + scaled y <= 2 ^ 90 - 2 ^ 38 ->
  in_money_range (Num.add x y)
  /\ Z.abs (scaled (Num.add x y) - (scaled x + scaled y)) <= 2 ^ 37.
Proof.
  intros Hx Hy Hcap.
  destruct x as [[|]| | |[|] mx ex]; cbn in Hx; try contradiction;
    destruct y as [[|]| | |[|] my ey]; cbn in Hy; try contradiction.
  - split; [exact I | cbn; lia].
  - split; [exact Hy | cbn [Num.add SFadd scaled]; lia].
  - split; [exact Hx | cbn [Num.add SFadd scaled]; lia].
  - destruct Hx as [Dx Ex], Hy as [Dy Ey]. cbn [scaled] in Hcap |- *.
    unfold Num.add. cbn [SFadd cond_Zopp].
    set (ez := Z.min ex ey).
    destruct (shl_align_le mx ex ez ltac:(lia)) as [ma [Ea Va]].
    destruct (shl_align_le my ey ez ltac:(lia)) as [mb [Eb Vb]].
    rewrite Ea, Eb. cbn [fst Z.add binary_normalize].
    set (M := (ma + mb)%positive).
    set (P := 2 ^ (ez + 59)).
    assert (HP : 0 < P) by (apply Z.pow_pos_nonneg; lia).
    assert (Sx : Zpos mx * 2 ^ (ex + 59) = Zpos ma * P).
    { rewrite Va. subst P. rewrite <- Z.mul_assoc, <- Z.pow_add_r by lia.
      do 2 f_equal. lia. }
    assert (Sy : Zpos my * 2 ^ (ey + 59) = Zpos mb * P).
    { rewrite Vb. subst P. rewrite <- Z.mul_assoc, <- Z.pow_add_r by lia.
      do 2 f_equal. lia. }
    rewrite Sx, Sy in *.
    assert (HM : Zpos M = Zpos ma + Zpos mb) by (subst M; lia).
    assert (Hma : 2 ^ 52 <= Zpos ma).
    { pose proof (digits_spec mx) as S. rewrite Dx in S. cbn in S.
      assert (1 <= 2 ^ (ex - ez)) by (apply (Z.pow_le_mono_r 2 0); lia). nia. }
    assert (HdM : 53 <= digits M).
    { pose proof (digits_spec M) as S.
      destruct (Z.lt_ge_cases (digits M) 53) as [L|L]; [|exact L]. exfalso.
      assert (2 ^ digits M <= 2 ^ 52) by (apply Z.pow_le_mono_r; lia). lia. }
    set (t := digits M - 53) in *.
    assert (Ht : 0 <= t) by lia.
    set (T := 2 ^ t).
    assert (HT : 0 < T) by (apply Z.pow_pos_nonneg; lia).
    assert (HMlo : 2 ^ 52 * T <= Zpos M).
    { pose proof (digits_spec M) as S. replace (digits M - 1) with (52 + t) in S by lia.
      rewrite Z.pow_add_r in S by lia. exact (proj1 S). }
    assert (HTP : T * P = 2 ^ (ez + t + 59)).
    { subst T P. rewrite <- Z.pow_add_r by lia. f_equal. lia. }
    assert (Hexp : ez + t <= -22).
    { assert (L : 2 ^ (52 + (ez + t + 59)) < 2 ^ 90).
      { rewrite Z.pow_add_r, <- HTP by lia. nia. }
      apply pow2_lt_exp in L; lia. }
    unfold binary_round.
    assert (Ef : fexp Num.prec Num.emax (digits M + ez) = ez + t).
    { unfold fexp, emin, Num.prec, Num.emax. lia. }
    rewrite Ef, shl_align_ge by lia.
    destruct (round_aux_bracket false M ez loc_Exact HdM) as [m' [e' [R [D' [He' G]]]]];
      try (fold t; lia).
    fold t in He', G. fold T in G. rewrite R.
    set (F := Zpos M / T) in G.
    assert (HF : F * T <= Zpos M < (F + 1) * T) by (subst F; apply div_bracket; exact HT).
    assert (HF52 : 2 ^ 52 <= F) by (subst F; apply Z.div_le_lower_bound; lia).
    assert (Hm' : 2 ^ 52 <= Zpos m').
    { pose proof (digits_spec m') as S. rewrite D' in S. exact (proj1 S). }
    assert (Sr : Zpos m' * 2 ^ (e' + 59) = Zpos m' * 2 ^ (e' - (ez + t)) * (T * P)).
    { rewrite HTP, <- Z.mul_assoc, <- Z.pow_add_r by lia. do 2 f_equal. lia. }
    assert (HTPpos : 0 < T * P) by (apply Z.mul_pos_pos; assumption).
    assert (Hv : Zpos ma * P + Zpos mb * P = Zpos M * P) by (rewrite HM; ring).
    rewrite Hv in *.
    assert (HvF : F * (T * P) <= Zpos M * P < (F + 1) * (T * P)).
    { rewrite !Z.mul_assoc. split.
      - apply Z.mul_le_mono_nonneg_r; lia.
      - apply Z.mul_lt_mono_pos_r; lia. }
    assert (He'' : e' <= -22).
    { destruct (Z.eq_dec e' (ez + t)) as [->|N]; [exact Hexp|].
      assert (e' = ez + t + 1) by lia. subst e'.
      replace (ez + t + 1 - (ez + t)) with 1 in G by lia.
      change (2 ^ 1) with 2 in G.
      assert (HG : 2 ^ 53 - 1 <= F) by lia.
      assert (L : 2 ^ (ez + t + 59) < 2 ^ 37).
      { rewrite <- HTP.
        assert ((2 ^ 53 - 1) * (T * P) <= F * (T * P))
          by (apply Z.mul_le_mono_nonneg_r; lia).
        lia. }
      apply pow2_lt_exp in L; lia. }
    split; [cbn; split; [exact D' | lia]|].
    cbn [scaled]. rewrite Sr.
    assert (HTPle : T * P <= 2 ^ 37).
    { rewrite HTP. apply Z.pow_le_mono_r; lia. }
    destruct G as [G|G]; rewrite G; apply Z.abs_le; lia.
Qed.

End MoneySums.

Section MoneyAmounts.

Local Abbreviation digits m := (Zpos (digits2_pos m)).

(** The quotient of two whole numbers, as [parseFloat] rounds it: a number
    in the range of money within one unit in the last place of the exact
    quotient. *)
Lemma round_quotient_near (p q : positive) :
  -59 <= digits p - digits q - 53 ->
  Zpos p < Zpos q * 2 ^ 30 ->
  exists (m' : positive) (e' : Z),
    Num.round_quotient false (Zpos p) (Zpos q) = S754_finite false m' e'
    /\ digits m' = 53 /\ -59 <= e' <= -22
    /\ Z.abs (Zpos q * (Zpos m' * 2 ^ (e' + 59)) - Zpos p * 2 ^ 59)
       <= Zpos q * 2 ^ 37.
Proof.
  intros Hlo Hhi.
  set (e0 := digits p - digits q - 53) in *.
  pose proof (digits_spec p) as Sp. pose proof (digits_spec q) as Sq.
  assert (Dp : 1 <= digits p) by lia. assert (Dq : 1 <= digits q) by lia.
  assert (He0 : e0 <= -23).
  { assert (L : 2 ^ (digits p - 1) < 2 ^ (digits q + 30)).
    { rewrite (Z.pow_add_r 2 (digits q)) by lia.
      assert (Zpos q * 2 ^ 30 < 2 ^ digits q * 2 ^ 30)
        by (apply Z.mul_lt_mono_pos_r; lia).
      lia. }
    apply pow2_lt_exp in L; lia. }
  unfold Num.round_quotient, SFdiv_core_binary. cbn [Zdigits2].
  assert (Ee : Z.min (fexp Num.prec Num.emax (digits p + 0 - (digits q + 0))) (0 - 0) = e0).
  { unfold fexp, emin, Num.prec, Num.emax. lia. }
  rewrite Ee.
  set (s := Z.to_pos (- e0)).
  assert (Es : 0 - 0 - e0 = Zpos s) by (subst s; rewrite Z2Pos.id; lia).
  rewrite Es. rewrite Z.shiftl_mul_pow2 by lia.
  set (N := Zpos p * 2 ^ Zpos s).
  assert (HS : 0 < 2 ^ Zpos s) by (apply Z.pow_pos_nonneg; lia).
  assert (HNlo : Zpos q * 2 ^ 52 < N).
  { subst N.
    assert (E : 2 ^ (digits p - 1) * 2 ^ Zpos s = 2 ^ digits q * 2 ^ 52).
    { rewrite <- !Z.pow_add_r by lia. f_equal. lia. }
    assert (Zpos q * 2 ^ 52 < 2 ^ digits q * 2 ^ 52)
      by (apply Z.mul_lt_mono_pos_r; lia).
    assert (2 ^ (digits p - 1) * 2 ^ Zpos s <= Zpos p * 2 ^ Zpos s)
      by (apply Z.mul_le_mono_nonneg_r; lia).
    lia. }
  assert (HNhi : N < Zpos q * 2 ^ 54).
  { subst N.
    assert (E : 2 ^ digits p * 2 ^ Zpos s = 2 ^ (digits q - 1) * 2 ^ 54).
    { rewrite <- !Z.pow_add_r by lia. f_equal. lia. }
    assert (2 ^ (digits q - 1) * 2 ^ 54 <= Zpos q * 2 ^ 54)
      by (apply Z.mul_le_mono_nonneg_r; lia).
    assert (Zpos p * 2 ^ Zpos s < 2 ^ digits p * 2 ^ Zpos s)
      by (apply Z.mul_lt_mono_pos_r; lia).
    lia. }
  pose proof (Z_div_mod N (Zpos q) ltac:(lia)) as DM.
  destruct (Z.div_eucl N (Zpos q)) as [qq r]. destruct DM as [EN Hr].
  assert (Hqq : 2 ^ 52 <= qq < 2 ^ 54) by nia.
  destruct qq as [|qp|qp]; try lia.
  assert (HdL : 53 <= digits qp).
  { pose proof (digits_spec qp) as S.
    destruct (Z.lt_ge_cases (digits qp) 53) as [L|L]; [|exact L]. exfalso.
    assert (2 ^ digits qp <= 2 ^ 52) by (apply Z.pow_le_mono_r; lia). lia. }
  assert (HdH : digits qp <= 54).
  { pose proof (digits_spec qp) as S.
    assert (L : 2 ^ (digits qp - 1) < 2 ^ 54) by lia.
    apply pow2_lt_exp in L; lia. }
  set (t := digits qp - 53) in *.
  match goal with
  | |- context [binary_round_aux _ _ _ _ _ ?l] =>
      destruct (round_aux_bracket false qp e0 l HdL)
        as [m' [e' [R [D' [He' G]]]]]; try (fold t; lia)
  end.
  fold t in He', G. exists m', e'. split; [exact R|]. split; [exact D'|].
  set (T := 2 ^ t) in *.
  assert (HT : 0 < T) by (apply Z.pow_pos_nonneg; lia).
  set (F := Zpos qp / T) in G.
  assert (HF : F * T <= Zpos qp < (F + 1) * T) by (subst F; apply div_bracket; exact HT).
  assert (Hqlo : T * 2 ^ 52 <= Zpos qp).
  { pose proof (digits_spec qp) as S.
    replace (digits qp - 1) with (t + 52) in S by lia.
    rewrite Z.pow_add_r in S by lia. exact (proj1 S). }
  assert (HF52 : 2 ^ 52 <= F) by (subst F; apply Z.div_le_lower_bound; lia).
  set (W := 2 ^ (e0 + 59)).
  assert (HW : 0 < W) by (apply Z.pow_pos_nonneg; lia).
  assert (HNW : Zpos p * 2 ^ 59 = N * W).
  { subst N W. rewrite <- Z.mul_assoc, <- Z.pow_add_r by lia. do 2 f_equal. lia. }
  assert (HTW : T * W = 2 ^ (e0 + t + 59)).
  { subst T W. rewrite <- Z.pow_add_r by lia. f_equal. lia. }
  assert (HU : 0 < T * W) by (apply Z.mul_pos_pos; assumption).
  assert (Sr : Zpos m' * 2 ^ (e' + 59) = Zpos m' * 2 ^ (e' - (e0 + t)) * (T * W)).
  { rewrite HTW, <- Z.mul_assoc, <- Z.pow_add_r by lia. do 2 f_equal. lia. }
  rewrite Sr, HNW.
  set (U := T * W) in *.
  assert (Hbr : Zpos q * (F * U) <= N * W < Zpos q * ((F + 1) * U)).
  { subst U. split.
    - assert (Zpos q * (F * T) * W <= Zpos q * Zpos qp * W).
      { apply Z.mul_le_mono_nonneg_r; [lia|]. apply Z.mul_le_mono_nonneg_l; lia. }
      assert (Zpos q * Zpos qp * W <= N * W)
        by (apply Z.mul_le_mono_nonneg_r; lia).
      replace (Zpos q * (F * (T * W))) with (Zpos q * (F * T) * W) by ring. lia.
    - assert (N * W < Zpos q * (Zpos qp + 1) * W)
        by (apply Z.mul_lt_mono_pos_r; lia).
      assert (Zpos q * (Zpos qp + 1) * W <= Zpos q * ((F + 1) * T) * W).
      { apply Z.mul_le_mono_nonneg_r; [lia|]. apply Z.mul_le_mono_nonneg_l; lia. }
      replace (Zpos q * ((F + 1) * (T * W))) with (Zpos q * ((F + 1) * T) * W) by ring.
      lia. }
  assert (HUlt : U < 2 ^ 37).
  { destruct (Z.lt_ge_cases U (2 ^ 37)) as [L|L]; [exact L|]. exfalso.
    assert (2 ^ 52 * 2 ^ 37 <= F * U) by (apply Z.mul_le_mono_nonneg; lia).
    assert (Zpos q * (2 ^ 52 * 2 ^ 37) <= Zpos q * (F * U))
      by (apply Z.mul_le_mono_nonneg_l; lia).
    assert (N * W < Zpos q * 2 ^ 30 * 2 ^ 59).
    { rewrite <- HNW. apply Z.mul_lt_mono_pos_r; lia. }
    lia. }
  assert (Hexp : e0 + t + 59 < 37).
  { apply pow2_lt_exp; [lia | lia |]. rewrite <- HTW. exact HUlt. }
  split; [lia|].
  assert (Zpos q * U <= Zpos q * 2 ^ 37) by (apply Z.mul_le_mono_nonneg_l; lia).
  destruct G as [G|G]; rewrite G; apply Z.abs_le; lia.
Qed.

Lemma value_of_step (ds : list Z) (a : Z) :
  0 <= a -> Forall (fun d => 0 <= d) ds ->
  0 <= fold_left (fun a d => 10 * a + d) ds a.
Proof.
  intros Ha H. revert a Ha. induction H as [|d ds Hd _ IH]; intros a Ha.
  - exact Ha.
  - cbn [fold_left]. apply IH. lia.
Qed.

Lemma digit_val_nonneg (c : ascii) (d : Z) : JsDate.digit_val c = Some d -> 0 <= d.
Proof.
  unfold JsDate.digit_val.
  destruct ((48 <=? N_of_ascii c)%N && (N_of_ascii c <=? 57)%N) eqn:E; [|discriminate].
  intros [= <-]. apply andb_true_iff in E. destruct E as [E _].
  apply N.leb_le in E. lia.
Qed.

Lemma span_digits_nonneg (s : string) :
  Forall (fun d => 0 <= d) (fst (Num.span_digits s)).
Proof.
  induction s as [|c r IH]; cbn [Num.span_digits].
  - constructor.
  - destruct (JsDate.digit_val c) as [d|] eqn:E; [|constructor].
    destruct (Num.span_digits r) as [ds rest]. cbn [fst] in *.
    constructor; [exact (digit_val_nonneg c d E) | exact IH].
Qed.

Lemma value_of_nonneg (ds : list Z) :
  Forall (fun d => 0 <= d) ds -> 0 <= Num.value_of ds.
Proof. intros H. apply value_of_step; [lia | exact H]. Qed.

(** A string that starts with a digit is neither trimmed nor signed, and
    does not spell [Infinity]. *)
Lemma parseFloat_digit (c : ascii) (r : string) (d : Z) :
  JsDate.digit_val c = Some d ->
  Num.parseFloat (String c r) = Num.unsigned_literal false (String c r)
  /\ prefix "Infinity" (String c r) = false.
Proof.
  destruct c as [[|] [|] [|] [|] [|] [|] [|] [|]]; intros H;
    try discriminate H; split; reflexivity.
Qed.

(** What [parseFloat] makes of an amount of money. *)
Lemma parseFloat_money (s : string) (k : Z) :
  money_cents s = Some k ->
  exists m : Z,
    0 <= m
    /\ ((k = 100 * m /\ Num.parseFloat s = Num.decimal_value false m 0)
        \/ (k = 10 * m /\ Num.parseFloat s = Num.decimal_value false m (-1))
        \/ (k = m /\ Num.parseFloat s = Num.decimal_value false m (-2))).
Proof.
  intros H.
  assert (P : Num.parseFloat s = Num.unsigned_literal false s
              /\ prefix "Infinity" s = false).
  { destruct s as [|c r]; [discriminate H|].
    unfold money_cents in H. cbn [Num.span_digits] in H.
    destruct (JsDate.digit_val c) as [d|] eqn:E; [|discriminate H].
    exact (parseFloat_digit c r d E). }
  destruct P as [-> Pi]. unfold Num.unsigned_literal. rewrite Pi.
  unfold money_cents in H.
  pose proof (span_digits_nonneg s) as Hip.
  destruct (Num.span_digits s) as [ip r]. cbn [fst] in Hip.
  destruct ip as [|i ip]; [discriminate H|].
  destruct r as [|c r1].
  - injection H as <-. exists (Num.value_of (i :: ip)).
    split; [now apply value_of_nonneg|]. left. split; reflexivity.
  - destruct c as [[|] [|] [|] [|] [|] [|] [|] [|]]; try discriminate H.
    pose proof (span_digits_nonneg r1) as Hfp.
    destruct (Num.span_digits r1) as [fp r2]. cbn [fst] in Hfp.
    destruct r2 as [|c2 r2]; [|discriminate H].
    assert (Hall : Forall (fun d => 0 <= d) ((i :: ip) ++ fp)%list)
      by (apply Forall_app; split; assumption).
    destruct fp as [|f1 [|f2 [|f3 fp]]]; try discriminate H; injection H as <-.
    + exists (Num.value_of (i :: ip)).
      split; [now apply value_of_nonneg|]. left. split; [reflexivity|].
      rewrite app_nil_r. reflexivity.
    + exists (Num.value_of ((i :: ip) ++ [f1])%list).
      split; [now apply value_of_nonneg|]. right. left. split; reflexivity.
    + exists (Num.value_of ((i :: ip) ++ [f1; f2])%list).
      split; [now apply value_of_nonneg|]. right. right. split; reflexivity.
Qed.

Lemma near_whole (m : Z) :
  0 < m < 2 ^ 30 -> near (Num.of_Z m) (100 * m) 0.
Proof.
  intros Hm.
  destruct (normal_form_exists m ltac:(lia)) as [mm [e F]].
  rewrite (of_Z_normal_form m mm e) by (lia || assumption).
  pose proof (normal_form_log2 m mm e ltac:(lia) F) as He.
  destruct F as [Hd [Hr Hv]].
  assert (L : Z.log2 m < 30) by (apply Z.log2_lt_pow2; lia).
  unfold near. cbn [in_money_range scaled].
  split; [split; [exact Hd | lia]|].
  rewrite Hv, <- Z.mul_assoc, <- Z.pow_add_r by lia.
  replace (- e + (e + 59)) with 59 by lia.
  apply Z.abs_le. lia.
Qed.

Lemma near_quotient (m q k : Z) :
  0 < m -> (q = 10 /\ k = 10 * m \/ q = 100 /\ k = m) -> k <= 10 ^ 11 ->
  near (Num.round_quotient false m q) k 1.
Proof.
  intros Hm Hq Hk. destruct m as [|p|p]; try lia.
  pose proof (digits_spec p) as Sp.
  assert (Dp : 1 <= digits p) by lia.
  assert (Hq' : exists qp, q = Zpos qp /\ 4 <= digits qp <= 7
                           /\ Zpos p < Zpos qp * 2 ^ 30
                           /\ Zpos qp * k = 100 * Zpos p).
  { destruct Hq as [[-> ->]|[-> ->]].
    - exists 10%positive. cbn. lia.
    - exists 100%positive. cbn. lia. }
  destruct Hq' as [qp [-> [Dq [Hlt Hkq]]]].
  destruct (round_quotient_near p qp ltac:(lia) Hlt) as [m' [e' [R [D' [He' B]]]]].
  rewrite R. unfold near. cbn [in_money_range scaled].
  split; [split; assumption|].
  set (v := Zpos m' * 2 ^ (e' + 59)) in *.
  destruct Hq as [[Eq Ek]|[Eq Ek]]; injection Eq as ->; subst k;
    apply Z.abs_le in B; apply Z.abs_le; lia.
Qed.

(** The number [parseFloat] makes of an amount of money is within one unit
    in the last place of the amount. *)
Lemma parseFloat_near (s : string) (k : Z) :
  money_cents s = Some k -> k <= 10 ^ 11 ->
  0 <= k /\ near (Num.parseFloat s) k 1.
Proof.
  intros H Hk. destruct (parseFloat_money s k H) as [m [Hm C]].
  assert (Z0 : near (S754_zero false) 0 1).
  { unfold near. cbn [in_money_range scaled]. split; [exact I | cbn; lia]. }
  unfold Num.decimal_value in C.
  destruct (Z.eqb_spec m 0) as [->|N0].
  - destruct C as [[-> ->]|[[-> ->]|[-> ->]]]; (split; [lia | exact Z0]).
  - cbn [Z.leb Z.compare Z.opp] in C.
    destruct C as [[-> ->]|[[-> ->]|[-> ->]]]; (split; [lia|]).
    + cbn [cond_Zopp]. change (10 ^ 0) with 1. rewrite Z.mul_1_r.
      destruct (near_whole m ltac:(lia)) as [R B]. unfold Num.of_Z in R, B.
      split; [exact R | lia].
    + apply near_quotient; [lia | left; split; reflexivity | exact Hk].
    + apply near_quotient; [lia | right; split; reflexivity | exact Hk].
Qed.

Lemma cents_nonneg (s : string) : 0 <= cents s.
Proof.
  unfold cents. destruct (money_cents s) as [k|] eqn:E; [|lia].
  destruct (parseFloat_money s k E) as [m [Hm C]]. lia.
Qed.

Lemma sum_cents_nonneg (l : list string) : 0 <= sumZ (map cents l).
Proof.
  apply sumZ_nonneg, Forall_forall. intros n Hn.
  apply in_map_iff in Hn. destruct Hn as [p [<- _]]. apply cents_nonneg.
Qed.

(** The accumulator of [reduce] over amounts of money stays within two
    units in the last place per record of their exact sum. *)
Lemma sum_of_money_amounts (l : list Item.t) :
  forall (acc : Num.number) (c n : Z),
    0 <= c -> 0 <= n -> near acc c n ->
    (forall p, In p (map Item.payment l) -> money_cents p <> None) ->
    c + sumZ (map cents (map Item.payment l)) <= 10 ^ 11 ->
    n + 2 * Z.of_nat (List.length l) <= 20000 ->
    near (fold_left (fun sum item => Num.add sum (Num.parseFloat (Item.payment item)))
                    l acc)
         (c + sumZ (map cents (map Item.payment l)))
         (n + 2 * Z.of_nat (List.length l)).
Proof.
  induction l as [|x l IH]; intros acc c n Hc Hn Hacc Hw Hs Hl.
  - cbn. now rewrite Z.add_0_r, Z.add_0_r.
  - pose proof (sum_cents_nonneg (map Item.payment l)) as Hrest.
    pose proof (cents_nonneg (Item.payment x)) as Hx0.
    assert (E : sumZ (map cents (map Item.payment (x :: l)))
                = cents (Item.payment x) + sumZ (map cents (map Item.payment l)))
      by reflexivity.
    rewrite E in *. clear E.
    assert (El : Z.of_nat (List.length (x :: l)) = 1 + Z.of_nat (List.length l))
      by (cbn [List.length]; lia).
    rewrite El in *. clear El.
    assert (Hk : money_cents (Item.payment x) = Some (cents (Item.payment x))).
    { unfold cents. destruct (money_cents (Item.payment x)) eqn:E; [reflexivity|].
      exfalso. apply (Hw (Item.payment x)); [now left | exact E]. }
    destruct (parseFloat_near _ _ Hk ltac:(lia)) as [_ [Ry By]].
    destruct Hacc as [Rx Bx].
    set (y := Num.parseFloat (Item.payment x)) in *.
    set (k := cents (Item.payment x)) in *.
    apply Z.abs_le in Bx. apply Z.abs_le in By.
    destruct (add_bracket acc y Rx Ry ltac:(lia)) as [Rs Bs].
    apply Z.abs_le in Bs.
    cbn [fold_left]. fold y.
    replace (c + (k + sumZ (map cents (map Item.payment l))))
      with ((c + k) + sumZ (map cents (map Item.payment l))) by ring.
    replace (n + 2 * (1 + Z.of_nat (List.length l)))
      with ((n + 2) + 2 * Z.of_nat (List.length l)) by ring.
    apply IH; try lia.
    + split; [exact Rs|]. apply Z.abs_le. lia.
    + intros p Hp. apply Hw. now right.
Qed.

(** A number within half a cent of [K] cents is shown as [K] cents. *)
Lemma toFixed2_near (x : Num.number) (K : Z) :
  in_money_range x -> Z.abs (100 * scaled x - K * 2 ^ 59) < 2 ^ 58 ->
  Num.toFixed2 x = Some (Num.two_places K).
Proof.
  intros R B. apply Z.abs_lt in B.
  destruct x as [[|]| | |[|] m e]; cbn [in_money_range] in R; try contradiction.
  - cbn [scaled] in B. assert (K = 0) by lia. subst K. reflexivity.
  - destruct R as [Hd He]. cbn [scaled] in B. unfold Num.toFixed2.
    pose proof (digits_spec m) as Sm. rewrite Hd in Sm.
    destruct (Z.leb_spec 0 e) as [L|_]; [lia|].
    set (D := 2 ^ (- e)).
    assert (HD : 1 <= D) by (apply (Z.pow_le_mono_r 2 0); lia).
    assert (Big : (10 ^ 21 * D <=? Zpos m) = false).
    { apply Z.leb_gt.
      assert (10 ^ 21 * 1 <= 10 ^ 21 * D) by (apply Z.mul_le_mono_nonneg_l; lia).
      lia. }
    rewrite Big.
    set (S := 2 ^ (e + 59)) in *.
    assert (HS : 0 < S) by (apply Z.pow_pos_nonneg; lia).
    assert (HSD : S * D = 2 ^ 59).
    { subst S D. rewrite <- Z.pow_add_r by lia. f_equal. lia. }
    assert (En : (200 * Zpos m + D) / (2 * D) = K).
    { symmetry. apply (Z.div_unique_pos _ _ _ (200 * Zpos m + D - 2 * D * K)); [|ring].
      assert (L1 : (2 * K - 1) * 2 ^ 59 < 200 * (Zpos m * S)) by lia.
      assert (L2 : 200 * (Zpos m * S) < (2 * K + 1) * 2 ^ 59) by lia.
      rewrite <- HSD in L1, L2.
      assert (M1 : (2 * K - 1) * D < 200 * Zpos m).
      { apply (Z.mul_lt_mono_pos_l S); [exact HS|].
        replace (S * ((2 * K - 1) * D)) with ((2 * K - 1) * (S * D)) by ring.
        replace (S * (200 * Zpos m)) with (200 * (Zpos m * S)) by ring. exact L1. }
      assert (M2 : 200 * Zpos m < (2 * K + 1) * D).
      { apply (Z.mul_lt_mono_pos_l S); [exact HS|].
        replace (S * ((2 * K + 1) * D)) with ((2 * K + 1) * (S * D)) by ring.
        replace (S * (200 * Zpos m)) with (200 * (Zpos m * S)) by ring. exact L2. }
      lia. }
    rewrite En. reflexivity.
Qed.

(** The total of at most 10000 amounts of money that add up to at most a
    billion is shown as their exact sum. *)
Lemma total_of_money_amounts (l : list Item.t) :
  (forall p, In p (map Item.payment l) -> money_cents p <> None) ->
  Z.of_nat (List.length l) <= 10000 ->
  sumZ (map cents (map Item.payment l)) <= 10 ^ 11 ->
  Num.toFixed2
    (fold_left (fun sum item => Num.add sum (Num.parseFloat (Item.payment item)))
               l Num.zero)
  = Some (Num.two_places (sumZ (map cents (map Item.payment l)))).
Proof.
  intros Hw Hl Hs.
  assert (Z0 : near Num.zero 0 0).
  { unfold near, Num.zero. cbn [in_money_range scaled]. split; [exact I | cbn; lia]. }
  destruct (sum_of_money_amounts l Num.zero 0 0 ltac:(lia) ltac:(lia) Z0 Hw
              ltac:(lia) ltac:(lia)) as [R B].
  rewrite Z.add_0_l in B.
  apply toFixed2_near; [exact R|].
  apply Z.abs_le in B. apply Z.abs_lt. lia.
Qed.

End MoneyAmounts.

Lemma pad2_length (n : Z) :
  0 <= n < 100 -> String.length (JsDate.pad 2 n) = 2%nat.
Proof.
  intros Hn.
  assert (A : forallb (fun k => (String.length (JsDate.pad 2 (Z.of_nat k)) =? 2)%nat)
                      (seq 0 100) = true) by (vm_compute; reflexivity).
  rewrite forallb_forall in A.
  specialize (A (Z.to_nat n)). rewrite Z2Nat.id in A by lia.
  apply Nat.eqb_eq, A, in_seq. lia.
Qed.

(** C6, as the code has it: the total is the binary64 sum of
    [parseFloat(amount)] taken from [0] through the collection in its order,
    and it is shown by [toFixed(2)].  When every current amount is written as
    decimal digits with at most two decimal places, there are at most 10000
    records and the amounts add up to at most 1,000,000,000.00, the total
    shown is the exact sum of the amounts: its whole part, a point and the
    two digits of its cents; and every state with the same multiset of
    amount strings shows the same total. *)
Theorem C6_total_of_money_amounts (w w' : World) :
  (forall p, In p (payments w) -> money_cents p <> None) ->
  Z.of_nat (List.length (payments w)) <= 10000 ->
  sumZ (map cents (payments w)) <= 10 ^ 11 ->
  Permutation (payments w') (payments w) ->
  let K := sumZ (map cents (payments w)) in
  totalText w = Some (Number_toString (K / 100) ++ "." ++ JsDate.pad 2 (K mod 100))
  /\ String.length (JsDate.pad 2 (K mod 100)) = 2%nat
  /\ totalText w' = totalText w.
Proof.
  intros Hw Hl Hs Hp K.
  assert (T : totalText w = Some (Num.two_places K)).
  { apply total_of_money_amounts; [exact Hw | | exact Hs].
    unfold payments in Hl. now rewrite length_map in Hl. }
  assert (T' : totalText w' = Some (Num.two_places K)).
  { unfold K. rewrite <- (sumZ_perm _ _ (Permutation_map cents Hp)).
    apply total_of_money_amounts.
    - intros p Hin. apply Hw. exact (Permutation_in p Hp Hin).
    - rewrite <- (length_map Item.payment). fold (payments w').
      now rewrite (Permutation_length Hp).
    - change (sumZ (map cents (payments w')) <= 10 ^ 11).
      now rewrite (sumZ_perm _ _ (Permutation_map cents Hp)). }
  split; [exact T|]. split; [|now rewrite T, T'].
  apply pad2_length. apply Z.mod_pos_bound. lia.
Qed.

Lemma C6_total_of_money_amounts_witness :
  payments ledger_alice_bob = ["50.00"; "25.50"]
  /\ payments ledger_bob_alice = ["25.50"; "50.00"]
  /\ sumZ (map cents (payments ledger_alice_bob)) = 7550
  /\ totalText ledger_alice_bob = Some "75.50"
  /\ totalText ledger_bob_alice = totalText ledger_alice_bob.
Proof.
  assert (E1 : payments ledger_alice_bob = ["50.00"; "25.50"])
    by (vm_compute; reflexivity).
  assert (E2 : payments ledger_bob_alice = ["25.50"; "50.00"])
    by (vm_compute; reflexivity).
  assert (Hw : forall p, In p (payments ledger_alice_bob) -> money_cents p <> None).
  { intros p Hin. rewrite E1 in Hin.
    destruct Hin as [<-|[<-|[]]]; vm_compute; discriminate. }
  assert (Hl : Z.of_nat (List.length (payments ledger_alice_bob)) <= 10000)
    by (rewrite E1; vm_compute; discriminate).
  assert (E : sumZ (map cents (payments ledger_alice_bob)) = 7550)
    by (vm_compute; reflexivity).
  assert (Hs : sumZ (map cents (payments ledger_alice_bob)) <= 10 ^ 11)
    by (rewrite E; vm_compute; discriminate).
  assert (Hp : Permutation (payments ledger_bob_alice) (payments ledger_alice_bob))
    by (rewrite E1, E2; exact (perm_swap "50.00" "25.50" [])).
  split; [exact E1|]. split; [exact E2|].
  split; [exact E|].
  pose proof (C6_total_of_money_amounts ledger_alice_bob ledger_bob_alice
                Hw Hl Hs Hp) as P.
  cbv zeta in P. rewrite E in P. destruct P as [P1 [_ P2]].
  split; [|exact P2].
  rewrite P1. vm_compute. reflexivity.
Defined.

(** C6 as stated fails, in two ways.  The amounts [1e16], [1], [1], each
    written as decimal digits, add up to [10000000000000002]; entered in
    this order the total shown is [10000000000000000.00], entered with
    [1e16] last it is [10000000000000002.00].  And below one unit, with one
    amount of three decimal places: [0.005], [0.2], [0.7] entered in this
    order show [0.91], entered with [0.005] last they show [0.90]. *)
Lemma C6_counterexample :
  (payments ledger_big_first = ["10000000000000000"; "1"; "1"]
   /\ payments ledger_big_last = ["1"; "1"; "10000000000000000"]
   /\ map money_cents (payments ledger_big_first)
      = [Some 1000000000000000000; Some 100; Some 100]
   /\ Permutation (payments ledger_big_last) (payments ledger_big_first)
   /\ totalText ledger_big_first = Some "10000000000000000.00"
   /\ totalText ledger_big_last = Some "10000000000000002.00")
  /\ (payments ledger_mills = ["0.005"; "0.2"; "0.7"]
      /\ payments ledger_mills' = ["0.2"; "0.7"; "0.005"]
      /\ map money_cents (payments ledger_mills) = [None; Some 20; Some 70]
      /\ Permutation (payments ledger_mills') (payments ledger_mills)
      /\ totalText ledger_mills = Some "0.91"
      /\ totalText ledger_mills' = Some "0.90").
Proof.
  split.
  - split; [reflexivity|]. split; [reflexivity|].
    split; [vm_compute; reflexivity|].
    split; [|split; vm_compute; reflexivity].
    apply Permutation_sym.
    exact (Permutation_cons_append ["1"; "1"] "10000000000000000").
  - split; [reflexivity|]. split; [reflexivity|].
    split; [vm_compute; reflexivity|].
    split; [|split; vm_compute; reflexivity].
    apply Permutation_sym.
    exact (Permutation_cons_append ["0.2"; "0.7"] "0.005").
Qed.

(** ** The scenario of two adds *)

Example scenario_alice_bob :
  let w := run [ChangeName "Alice"; ChangePayment "50.00";
                DateChange (Some (JsDate.parse "2024-03-01")); Submit (t0 + 1) (t0 + 2);
                ChangeName "Bob"; ChangePayment "25.50";
                DateChange (Some (JsDate.parse "2024-02-15")); Submit (t0 + 3) (t0 + 4)]
               (mount None t0) in
  totalText w = Some "75.50"
  /\ sortedContributions w =
     [Item.mk "1709251200001" "Alice" "50.00" "2024-03-01";
      Item.mk "1709251200003" "Bob" "25.50" "2024-02-15"]
  /\ storage w = Some (JSON.stringify (contributions w))
  /\ contributions (mount (storage w) (t0 + 5)) = contributions w.
Proof.
  cbv zeta. by_evaluation.
Qed.
